(** * Landsat harmonic regression: a per-pixel model of the Earth Engine script

    The script [Landsat_Harmonic_Regression.js] is a composition of Earth
    Engine image operations.  Every operation it uses acts pixel by pixel, so
    the model follows one pixel: an image is the list of its named bands at
    that pixel (a band is masked or carries a number) together with the
    properties the script reads or sets; an image collection is a list of
    images.  Numbers are exact reals: the [float()] casts of the script are
    the identity here.  Operations that Earth Engine rejects (a selector that
    matches no band, a rename with the wrong number of names, ...) return an
    error. *)

From Stdlib Require Import Reals Lra Lia ZArith List String Ascii Bool Arith.
From Stdlib Require Import DecimalString DecimalNat ClassicalDescription.
Import ListNotations.

Local Open Scope string_scope.
Local Open Scope list_scope.

(** ** Errors *)

Inductive result (A : Type) : Type :=
| Ok (a : A)
| Err (msg : string).

Arguments Ok {A} a.
Arguments Err {A} msg.

Definition bind {A B : Type} (r : result A) (k : A -> result B) : result B :=
  match r with
  | Ok a => k a
  | Err m => Err m
  end.

Notation "x <- r ;; k" := (bind r (fun x => k))
  (at level 61, r at next level, right associativity).

Definition is_ok {A : Type} (r : result A) : bool :=
  match r with Ok _ => true | Err _ => false end.

Fixpoint mapM {A B : Type} (f : A -> result B) (l : list A) : result (list B) :=
  match l with
  | [] => Ok []
  | a :: l' => b <- f a ;; bs <- mapM f l' ;; Ok (b :: bs)
  end.

(** ** Pixel values, bands and images *)

(** A pixel value: [None] is a masked (no-data) pixel. *)
Abbreviation value := (option R).

Definition vmap (f : R -> R) (v : value) : value :=
  match v with Some x => Some (f x) | None => None end.

(** A binary operation is masked where either operand is. *)
Definition vmap2 (f : R -> R -> R) (a b : value) : value :=
  match a, b with
  | Some x, Some y => Some (f x y)
  | _, _ => None
  end.

Abbreviation Band := (string * value)%type.

Record Image : Type := mkImage {
  bands : list Band;
  time_start : option Z;      (* 'system:time_start', milliseconds *)
  system_index : string;      (* 'system:index' *)
  valid : option Z            (* the 'valid' property set by the script *)
}.

Definition bandNames (img : Image) : list string := map fst (bands img).
Definition bandValues (img : Image) : list value := map snd (bands img).

Definition with_bands (img : Image) (bs : list Band) : Image :=
  mkImage bs (time_start img) (system_index img) (valid img).

(** An image computed by band arithmetic carries no properties. *)
Definition computed (bs : list Band) : Image := mkImage bs None "" None.

(** [ee.Image(c)]: one unmasked band named [constant]. *)
Definition Image_const (c : R) : Image := computed [("constant", Some c)].

(** ** Selectors

    Band selectors are regular expressions matched against the whole band
    name.  The script uses plain names, [.] (any one character) and a final
    [.*] (any rest); this is the fragment matched here. *)

Fixpoint re_match (p s : string) : bool :=
  match p with
  | EmptyString => match s with EmptyString => true | String _ _ => false end
  | String c p' =>
      if (Ascii.eqb c "." && String.eqb p' "*")%bool then true
      else match s with
           | EmptyString => false
           | String d s' => ((Ascii.eqb c "." || Ascii.eqb c d) && re_match p' s')%bool
           end
  end.

Definition select1 (p : string) (bs : list Band) : result (list Band) :=
  match filter (fun b => re_match p (fst b)) bs with
  | [] => Err ("Image.select: Pattern '" ++ p ++ "' did not match any bands.")%string
  | m => Ok m
  end.

Fixpoint select_bands (ps : list string) (bs : list Band) : result (list Band) :=
  match ps with
  | [] => Ok []
  | p :: ps' =>
      m <- select1 p bs ;;
      r <- select_bands ps' bs ;;
      Ok (m ++ r)
  end.

(** [image.select(selectors)]: properties are kept. *)
Definition select (ps : list string) (img : Image) : result Image :=
  bs <- select_bands ps (bands img) ;;
  Ok (with_bands img bs).

Definition rename_bands (names : list string) (bs : list Band) : result (list Band) :=
  if Nat.eqb (List.length names) (List.length bs)
  then Ok (combine names (map snd bs))
  else Err "Image.rename: The number of names must match the number of bands.".

(** [image.rename(names)]. *)
Definition rename (names : list string) (img : Image) : result Image :=
  bs <- rename_bands names (bands img) ;;
  Ok (with_bands img bs).

(** [image.select(selectors, newNames)]. *)
Definition select_as (ps names : list string) (img : Image) : result Image :=
  s <- select ps img ;;
  rename names s.

(** ** Adding bands *)

Definition has_name (n : string) (bs : list Band) : bool :=
  existsb (fun b => String.eqb n (fst b)) bs.

(** [dst.addBands(src)]: the bands of [src] are appended; a name already
    present in [dst] gets the suffix [_1].  The properties of [dst] are kept. *)
Definition addBands (dst src : Image) : Image :=
  with_bands dst
    (bands dst ++
     map (fun b => (if has_name (fst b) (bands dst) then (fst b ++ "_1")%string else fst b, snd b))
         (bands src)).

Fixpoint replace_band (b : Band) (bs : list Band) : list Band :=
  match bs with
  | [] => []
  | c :: bs' => if String.eqb (fst b) (fst c) then b :: bs' else c :: replace_band b bs'
  end.

(** [dst.addBands(src, null, true)]: a band of [src] whose name is present in
    [dst] replaces it in place, another one is appended. *)
Definition addBands_overwrite (dst src : Image) : Image :=
  with_bands dst
    (fold_left (fun acc b => if has_name (fst b) acc then replace_band b acc else acc ++ [b])
               (bands src) (bands dst)).

(** ** Band arithmetic

    A one-band operand is used against every band of the other image and the
    result takes the names of the longer operand; otherwise the band counts
    must agree, bands are paired by position and named after the left
    operand. *)

Definition binop (f : R -> R -> R) (a b : Image) : result Image :=
  match bands b with
  | [(_, y)] => Ok (computed (map (fun c => (fst c, vmap2 f (snd c) y)) (bands a)))
  | _ =>
      match bands a with
      | [(_, x)] => Ok (computed (map (fun c => (fst c, vmap2 f x (snd c))) (bands b)))
      | _ =>
          if Nat.eqb (List.length (bands a)) (List.length (bands b))
          then Ok (computed (map (fun p => (fst (fst p), vmap2 f (snd (fst p)) (snd (snd p))))
                                 (combine (bands a) (bands b))))
          else Err "Images must contain the same number of bands or only 1 band."
      end
  end.

Definition unop (f : R -> R) (a : Image) : Image :=
  with_bands a (map (fun c => (fst c, vmap f (snd c))) (bands a)).

Definition multiply := binop Rmult.
Definition add := binop Rplus.

(** [a.updateMask(m)]: a pixel of [a] stays valid where the one-band mask [m]
    is valid and non-zero. *)
Definition mask_value (m v : value) : value :=
  match m with
  | Some x => if Req_dec_T x 0 then None else v
  | None => None
  end.

Definition updateMask (a m : Image) : result Image :=
  match bands m with
  | [(_, y)] => Ok (with_bands a (map (fun c => (fst c, mask_value y (snd c))) (bands a)))
  | _ => Err "Image.updateMask: the mask must have one band."
  end.

(** ** Names of the regression terms *)

Definition string_of_nat (n : nat) : string := NilEmpty.string_of_uint (Nat.to_uint n).

Definition dependent : string := "NDVI".

(** [getNames(base, list)]: the base followed by the integer in decimal. *)
Definition getNames (base : string) (l : list nat) : list string :=
  map (fun i => (base ++ string_of_nat i)%string) l.

Section Names.
  (** The number of cycles per year to model ([var harmonics = 3] in the script). *)
Variable harmonics : nat.

Definition harmonicFrequencies : list nat := seq 1 harmonics.

Definition cosNames : list string := getNames "cos_" harmonicFrequencies.
Definition sinNames : list string := getNames "sin_" harmonicFrequencies.
Definition ampNames : list string := getNames "amplitude_" harmonicFrequencies.
Definition phaseNames : list string := getNames "phase_" harmonicFrequencies.

Definition independents : list string := ["constant"; "t"] ++ cosNames ++ sinNames.
End Names.

(** ** Dates

    A date is a number of milliseconds since 1970-01-01T00:00:00Z. *)

(** [ee.Date.fromYMD(year, month, day)] in UTC (proleptic Gregorian calendar). *)
Definition fromYMD (year month day : Z) : Z :=
  let y := (if month <=? 2 then year - 1 else year)%Z in
  let era := (y / 400)%Z in
  let yoe := (y - era * 400)%Z in
  let mp := ((month + 9) mod 12)%Z in
  let doy := ((153 * mp + 2) / 5 + day - 1)%Z in
  let doe := (yoe * 365 + yoe / 4 - yoe / 100 + doy)%Z in
  ((era * 146097 + doe - 719468) * 86400000)%Z.

(** The length the platform gives the unit ['year'] in [Date.difference]: the
    average Gregorian year of 365.2425 days. *)
Definition MILLIS_PER_YEAR : Z := 31556952000.

(** [date.difference(start, 'year')]: a fractional number of years. *)
Definition difference_years (date start : Z) : R :=
  (IZR (date - start) / IZR MILLIS_PER_YEAR)%R.

(** [collection.filterDate(start, end)]: start inclusive, end exclusive; an
    image without a time stamp is not kept. *)
Definition in_range (start stop : Z) (img : Image) : bool :=
  match time_start img with
  | Some t => ((start <=? t) && (t <? stop))%Z%bool
  | None => false
  end.

Definition filterDate (start stop : Z) (c : list Image) : list Image :=
  filter (in_range start stop) c.

(** ** The Landsat 8 Collection 2 Level 2 catalog image at the pixel *)

Record Raw : Type := mkRaw {
  raw_time : Z;
  raw_id : string;
  SR_B1 : Z; SR_B2 : Z; SR_B3 : Z; SR_B4 : Z; SR_B5 : Z; SR_B6 : Z; SR_B7 : Z;
  SR_QA_AEROSOL : Z;
  ST_B10 : Z; ST_ATRAN : Z; ST_CDIST : Z; ST_DRAD : Z; ST_EMIS : Z; ST_EMSD : Z;
  ST_QA : Z; ST_TRAD : Z; ST_URAD : Z;
  QA_PIXEL : Z; QA_RADSAT : Z
}.

Definition dn (z : Z) : value := Some (IZR z).

Definition catalog (r : Raw) : Image :=
  mkImage
    [("SR_B1", dn (SR_B1 r)); ("SR_B2", dn (SR_B2 r)); ("SR_B3", dn (SR_B3 r));
     ("SR_B4", dn (SR_B4 r)); ("SR_B5", dn (SR_B5 r)); ("SR_B6", dn (SR_B6 r));
     ("SR_B7", dn (SR_B7 r)); ("SR_QA_AEROSOL", dn (SR_QA_AEROSOL r));
     ("ST_B10", dn (ST_B10 r)); ("ST_ATRAN", dn (ST_ATRAN r));
     ("ST_CDIST", dn (ST_CDIST r)); ("ST_DRAD", dn (ST_DRAD r));
     ("ST_EMIS", dn (ST_EMIS r)); ("ST_EMSD", dn (ST_EMSD r)); ("ST_QA", dn (ST_QA r));
     ("ST_TRAD", dn (ST_TRAD r)); ("ST_URAD", dn (ST_URAD r));
     ("QA_PIXEL", dn (QA_PIXEL r)); ("QA_RADSAT", dn (QA_RADSAT r))]
    (Some (raw_time r)) (raw_id r) None.

(** ** Preprocessing *)

(** [bitwiseAnd] on an integer-valued band. *)
Definition bitwiseAnd_R (m : Z) (x : R) : R := IZR (Z.land (Int_part x) m).

(** [eq(c)]: 1 where the value equals [c], 0 elsewhere. *)
Definition eq_R (c x : R) : R := if Req_dec_T x c then 1%R else 0%R.

(** [parseInt('11111', 2)]. *)
Definition QA_BITS : Z := 31.

Definition maskL8sr (image : Image) : result Image :=
  qa <- select ["QA_PIXEL"] image ;;
  let qaMask := unop (eq_R 0) (unop (bitwiseAnd_R QA_BITS) qa) in
  sat <- select ["QA_RADSAT"] image ;;
  let saturationMask := unop (eq_R 0) sat in
  sr <- select ["SR_B."] image ;;
  sr1 <- multiply sr (Image_const 0.0000275) ;;
  opticalBands <- add sr1 (Image_const (-0.2)) ;;
  st <- select ["ST_B.*"] image ;;
  st1 <- multiply st (Image_const 0.00341802) ;;
  thermalBands <- add st1 (Image_const 149.0) ;;
  m1 <- updateMask (addBands_overwrite (addBands_overwrite image opticalBands) thermalBands)
                   qaMask ;;
  updateMask m1 saturationMask.

(** [image.normalizedDifference([a, b])]: (a - b) / (a + b) in one band named
    [nd], masked where an input is masked or negative; no property is kept. *)
Definition nd_value (a b : value) : value :=
  match a, b with
  | Some x, Some y =>
      if Rlt_dec x 0 then None
      else if Rlt_dec y 0 then None
      else Some ((x - y) / (x + y))%R
  | _, _ => None
  end.

Definition normalizedDifference (a b : string) (image : Image) : result Image :=
  s <- select [a; b] image ;;
  match bands s with
  | [(_, x); (_, y)] => Ok (computed [("nd", nd_value x y)])
  | _ => Err "Image.normalizedDifference: two bands are required."
  end.

Definition addNDVI (image : Image) : result Image :=
  nd <- normalizedDifference "SR_B5" "SR_B4" image ;;
  ndvi <- rename ["NDVI"] nd ;;
  Ok (addBands image ndvi).

Definition addConstant (image : Image) : result Image :=
  Ok (addBands image (Image_const 1)).

(** [ee.Date('1970-01-01')]. *)
Definition EPOCH : Z := fromYMD 1970 1 1.

Definition addTime (image : Image) : result Image :=
  match time_start image with
  | None => Err "Image.date: the image has no 'system:time_start'."
  | Some date =>
      let years := difference_years date EPOCH in
      let timeRadians := Image_const (years * (2 * PI)) in
      t <- rename ["t"] timeRadians ;;
      Ok (addBands image t)
  end.

(** [ee.Image.constant(list)]: one band per element, named [constant_<i>]. *)
Definition Image_constant (l : list R) : Image :=
  computed (combine (map (fun i => ("constant_" ++ string_of_nat i)%string)
                         (seq 0 (List.length l)))
                    (map Some l)).

Section FeatureBuilder.
Variable harmonics : nat.

Definition addHarmonics (freqs : list nat) (image : Image) : result Image :=
    let frequencies := Image_constant (map INR freqs) in
    time <- select ["t"] image ;;
    tf <- multiply time frequencies ;;
    cosines <- rename (cosNames harmonics) (unop cos tf) ;;
    tf' <- multiply time frequencies ;;
    sines <- rename (sinNames harmonics) (unop sin tf') ;;
    Ok (addBands (addBands image cosines) sines).

  (** One step of the chain of [map]s that builds [harmonicLandsat]. *)
Definition prepare (image : Image) : result Image :=
    i1 <- maskL8sr image ;;
    i2 <- addNDVI i1 ;;
    i3 <- addConstant i2 ;;
    i4 <- addTime i3 ;;
    addHarmonics (harmonicFrequencies harmonics) i4.

  (** [landsat8Sr.filterBounds(geometry).filterDate('2013', '2024').map(...)]:
      the collection is the list of catalog images that cover the pixel. *)
Definition harmonicLandsat (landsat8Sr : list Raw) : result (list Image) :=
    mapM prepare (filterDate (fromYMD 2013 1 1) (fromYMD 2024 1 1) (map catalog landsat8Sr)).
End FeatureBuilder.

(** ** Reducers *)

(** The unmasked values among the inputs of a reducer. *)
Definition unmasked (vs : list value) : list R :=
  flat_map (fun v => match v with Some x => [x] | None => [] end) vs.

(** A tuple of inputs enters a multi-input reducer only when none is masked. *)
Fixpoint all_unmasked (vs : list value) : option (list R) :=
  match vs with
  | [] => Some []
  | Some x :: vs' =>
      match all_unmasked vs' with Some l => Some (x :: l) | None => None end
  | None :: _ => None
  end.

Definition Rsum (l : list R) : R := fold_right Rplus 0%R l.

(** A reducer of numbers: masked when it receives no unmasked input. *)
Definition reduce_values (f : list R -> R) (vs : list value) : value :=
  match unmasked vs with
  | [] => None
  | xs => Some (f xs)
  end.

Definition mean (l : list R) : R := (Rsum l / INR (List.length l))%R.

(** [image.reduce(reducer)]: the reducer runs over the bands of the image at
    the pixel; the output band is named after the reducer. *)
Definition Image_reduce (name : string) (f : list R -> R) (img : Image) : Image :=
  computed [(name, reduce_values f (bandValues img))].

(** [collection.reduce(reducer)] and the shortcuts [mean()], [median()]: band
    [j] of the output reduces band [j] of every image; the names are those of
    the first image followed by [suffix]; an empty collection gives an image
    without bands. *)
Definition Collection_reduce (suffix : string) (f : list R -> R) (c : list Image) : Image :=
  match c with
  | [] => computed []
  | first :: _ =>
      computed
        (map (fun j => ((nth j (bandNames first) "" ++ suffix)%string,
                        reduce_values f (map (fun img => nth j (bandValues img) None) c)))
             (seq 0 (List.length (bands first))))
  end.

(** ** Derived statistics *)

Definition hypot_R (x y : R) : R := sqrt (x * x + y * y).

(** The angle of the vector with ordinate [y] and abscissa [x], in (-PI, PI]. *)
Definition atan2_R (y x : R) : R :=
  if Rlt_dec 0 x then atan (y / x)
  else if Rlt_dec x 0 then
    if Rlt_dec y 0 then (atan (y / x) - PI)%R else (atan (y / x) + PI)%R
  else if Rlt_dec 0 y then (PI / 2)%R
  else if Rlt_dec y 0 then (- (PI / 2))%R
  else 0%R.

(** [unitScale(low, high)]: [low, high] becomes [0, 1]; nothing is clamped. *)
Definition unitScale_R (low high x : R) : R := ((x - low) / (high - low))%R.

Definition hypot := binop hypot_R.
(** The platform's [a.atan2(b)] on numbers: the angle of the vector
    [[x = a, y = b]]; the receiver is the abscissa, the argument the ordinate. *)
Definition angle_R (x y : R) : R := atan2_R y x.

Definition atan2 := binop angle_R.
Definition unitScale (low high : R) := unop (unitScale_R low high).

(** ** Fixed-point storage *)

Definition INT16_MIN : Z := -32768.
Definition INT16_MAX : Z := 32767.

Definition clamp_int16 (z : Z) : Z := Z.max INT16_MIN (Z.min INT16_MAX z).

(** Rounding to the nearest integer, halves upwards. *)
Definition round_nearest (x : R) : Z := Int_part (x + / 2).

(** Decoding a stored integer: division by 10000. *)
Definition decode (z : Z) : R := (IZR z / 10000)%R.

(** ** The script *)

Section Script.
  (** The number of cycles per year to model. *)
Variable harmonics : nat.

  (** The platform's numeric kernels, which the script only calls: the
      least-squares solution for a design matrix (one row per observation) and
      the responses, its test for a rank-deficient design matrix, the median of
      a non-empty list of numbers, and the conversion of a number to an
      integer used by the integer casts. *)
Variable ols : list (list R) -> list R -> list R.
Variable rank_deficient : list (list R) -> bool.
Variable median : list R -> R.
Variable to_integer : R -> Z.

  (** [toShort()]: conversion to an integer, clamped to 16 bits. *)
Definition toShort_R (x : R) : R := IZR (clamp_int16 (to_integer x)).
Definition toShort := unop toShort_R.

  (** The tuples the regression reducer receives at the pixel: the selected
      bands of every image in which none of them is masked. *)
Definition regression_inputs (c : list Image) : result (list (list R)) :=
    sel <- mapM (select (independents harmonics ++ [dependent])) c ;;
    Ok (flat_map (fun img => match all_unmasked (bandValues img) with
                             | Some row => [row]
                             | None => []
                             end) sel).

  (** Modelled from the spec: [ee.Reducer.linearRegression(numX, 1)] is
      platform code; it reports no data when fewer valid observations exist
      than design columns or when the design matrix is rank-deficient, and the
      least-squares coefficient vector otherwise. *)
Definition linearRegression (numX : nat) (rows : list (list R)) : option (list R) :=
    let X := map (firstn numX) rows in
    let y := map (fun row => nth numX row 0%R) rows in
    if (Nat.ltb (List.length rows) numX || rank_deficient X)%bool then None
    else Some (ols X y).

  (** The array of coefficients at the pixel, masked or not.  The reduction
      of an empty collection is an image without bands, in which
      [select('coefficients')] finds nothing. *)
Definition harmonicTrend (c : list Image) : result (option (list R)) :=
    match c with
    | [] => Err "Image.select: Pattern 'coefficients' did not match any bands."
    | _ :: _ =>
        rows <- regression_inputs c ;;
        Ok (linearRegression (List.length (independents harmonics)) rows)
    end.

  (** [select('coefficients').arrayProject([0]).arrayFlatten([names])]. *)
Definition arrayFlatten (names : list string) (a : option (list R)) : result Image :=
    match a with
    | None => Ok (computed (map (fun n => (n, None)) names))
    | Some cs =>
        if Nat.eqb (List.length cs) (List.length names)
        then Ok (computed (combine names (map Some cs)))
        else Err "Image.arrayFlatten: the labels do not match the array."
    end.

  (** The coefficient image as first assigned (the regression terms only). *)
Definition coefficients (c : list Image) : result Image :=
    a <- harmonicTrend c ;;
    arrayFlatten (independents harmonics) a.

Definition fitted (coeffs image : Image) : result Image :=
    s <- select (independents harmonics) image ;;
    p <- multiply s coeffs ;;
    f <- rename ["fitted"] (Image_reduce "sum" Rsum p) ;;
    Ok (addBands image f).

Definition fittedHarmonic (c : list Image) : result (list Image) :=
    coeffs <- coefficients c ;;
    mapM (fitted coeffs) c.

  (** The amplitude bands, with the scale factor of the script. *)
Definition amplitude (coeffs : Image) : result Image :=
    s <- select ["sin_."] coeffs ;;
    c <- select ["cos_."] coeffs ;;
    h <- hypot s c ;;
    h5 <- multiply h (Image_const 5) ;;
    rename (ampNames harmonics) h5.

Definition phase (coeffs : Image) : result Image :=
    s <- select ["sin_."] coeffs ;;
    c <- select ["cos_."] coeffs ;;
    a <- atan2 s c ;;
    rename (phaseNames harmonics) (unitScale (- PI) PI a).

Definition NDVI_mean (c : list Image) : result Image :=
    ndvi <- mapM (select ["NDVI"]) c ;;
    rename ["NDVI_mean"] (Collection_reduce "_mean" mean ndvi).

  (** The coefficient image after the three reassignments. *)
Definition harmonicTrendCoefficients (c : list Image) : result Image :=
    c0 <- coefficients c ;;
    amp <- amplitude c0 ;;
    let c1 := addBands c0 amp in
    ph <- phase c1 ;;
    let c2 := addBands c1 ph in
    m <- NDVI_mean c ;;
    Ok (addBands c2 m).

  (** The exported coefficient raster. *)
Definition output (c : list Image) : result Image :=
    h <- harmonicTrendCoefficients c ;;
    scaled <- multiply h (Image_const 10000) ;;
    Ok (toShort scaled).
  (** *** Yearly composites *)

  (** [ee.List.sequence(2013, 2023)]. *)
Definition stepList : list Z := map Z.of_nat (seq 2013 11).

Definition set_time_start (t : Z) (img : Image) : Image :=
    mkImage (bands img) (Some t) (system_index img) (valid img).

Definition set_valid (v : Z) (img : Image) : Image :=
    mkImage (bands img) (time_start img) (system_index img) (Some v).

  (** The body of the function mapped over [stepList]: an empty list of band
      names counts as false in [ee.Algorithms.If]. *)
Definition composite (fittedHarmonic : list Image) (year : Z) : Image :=
    let startDate := fromYMD year 6 1 in
    let endDate := fromYMD year 9 30 in
    let composite_i :=
      set_time_start startDate
        (Collection_reduce "" median (filterDate startDate endDate fittedHarmonic)) in
    match bandNames composite_i with
    | [] => set_valid 0 composite_i
    | _ :: _ => set_valid 1 composite_i
    end.

Definition filterCollection (fittedHarmonic : list Image) : list Image :=
    map (composite fittedHarmonic) stepList.

  (** [ee.ImageCollection(list)]: the images get their position in the list
      as ['system:index']. *)
Definition ImageCollection (l : list Image) : list Image :=
    map (fun p => mkImage (bands (snd p)) (time_start (snd p))
                          (string_of_nat (fst p)) (valid (snd p)))
        (combine (seq 0 (List.length l)) l).

  (** [collection.filterMetadata('valid', 'equals', v)]. *)
Definition filterMetadata_valid (v : Z) (c : list Image) : list Image :=
    filter (fun img => match valid img with Some x => Z.eqb x v | None => false end) c.

Definition yearlyComposites (fittedHarmonic : list Image) : list Image :=
    filterMetadata_valid 1 (ImageCollection (filterCollection fittedHarmonic)).

Definition yearlyNDVI (fittedHarmonic : list Image) : result (list Image) :=
    mapM (select ["fitted"]) (yearlyComposites fittedHarmonic).

  (** [collection.toBands()]: all bands of all images, each name prefixed with
      the ['system:index'] of its image. *)
Definition toBands (c : list Image) : Image :=
    computed (flat_map (fun img =>
                          map (fun b => ((system_index img ++ "_" ++ fst b)%string, snd b))
                              (bands img)) c).

Definition positional_names : list string :=
    ["0_fitted"; "1_fitted"; "2_fitted"; "3_fitted"; "4_fitted"; "5_fitted";
     "6_fitted"; "7_fitted"; "8_fitted"; "9_fitted"; "10_fitted"].

Definition year_labels : list string :=
    ["2013"; "2014"; "2015"; "2016"; "2017"; "2018"; "2019"; "2020"; "2021"; "2022"; "2023"].

  (** The stack of yearly bands after the renaming [select]. *)
Definition yearlyStack (fittedHarmonic : list Image) : result Image :=
    y <- yearlyNDVI fittedHarmonic ;;
    select_as positional_names year_labels (toBands y).

Definition outImage (fittedHarmonic : list Image) : result Image :=
    s <- yearlyStack fittedHarmonic ;;
    scaled <- multiply s (Image_const 10000) ;;
    Ok (toShort scaled).

  (** *** The whole script at one pixel *)

Definition exported (landsat8Sr : list Raw) : result Image :=
    c <- harmonicLandsat harmonics landsat8Sr ;;
    output c.

Definition yearly (landsat8Sr : list Raw) : result Image :=
    c <- harmonicLandsat harmonics landsat8Sr ;;
    f <- fittedHarmonic c ;;
    outImage f.
End Script.

(** ** The raster

    The operations of the script act on every pixel separately: a scene
    gives the catalog values of one acquisition at every pixel, and the
    rasters the script exports hold, at a pixel, what the script computes from
    the values of the scenes at that pixel. *)

Definition Pixel : Type := (Z * Z)%type.

Definition Scene : Type := Pixel -> Raw.

Definition series_at (scenes : list Scene) (p : Pixel) : list Raw :=
  map (fun s => s p) scenes.

Definition exported_raster (harmonics : nat) (ols : list (list R) -> list R -> list R)
    (rank_deficient : list (list R) -> bool) (to_integer : R -> Z)
    (scenes : list Scene) (p : Pixel) : result Image :=
  exported harmonics ols rank_deficient to_integer (series_at scenes p).

Definition yearly_raster (harmonics : nat) (ols : list (list R) -> list R -> list R)
    (rank_deficient : list (list R) -> bool) (median : list R -> R) (to_integer : R -> Z)
    (scenes : list Scene) (p : Pixel) : result Image :=
  yearly harmonics ols rank_deficient median to_integer (series_at scenes p).


(** ** The prepared image in closed form

    The bands that the chain of [map]s produces from a catalog image. *)

Definition qa_clear (r : Raw) : value := Some (eq_R 0 (bitwiseAnd_R QA_BITS (IZR (QA_PIXEL r)))).
Definition unsaturated (r : Raw) : value := Some (eq_R 0 (IZR (QA_RADSAT r))).
Definition keep (r : Raw) (v : value) : value := mask_value (unsaturated r) (mask_value (qa_clear r) v).
Definition reflectance (z : Z) : value := Some (IZR z * 0.0000275 + -0.2)%R.
Definition temperature (z : Z) : value := Some (IZR z * 0.00341802 + 149.0)%R.

Definition masked_bands (r : Raw) : list Band :=
    [("SR_B1", keep r (reflectance (SR_B1 r))); ("SR_B2", keep r (reflectance (SR_B2 r)));
     ("SR_B3", keep r (reflectance (SR_B3 r))); ("SR_B4", keep r (reflectance (SR_B4 r)));
     ("SR_B5", keep r (reflectance (SR_B5 r))); ("SR_B6", keep r (reflectance (SR_B6 r)));
     ("SR_B7", keep r (reflectance (SR_B7 r))); ("SR_QA_AEROSOL", keep r (dn (SR_QA_AEROSOL r)));
     ("ST_B10", keep r (temperature (ST_B10 r))); ("ST_ATRAN", keep r (dn (ST_ATRAN r)));
     ("ST_CDIST", keep r (dn (ST_CDIST r))); ("ST_DRAD", keep r (dn (ST_DRAD r)));
     ("ST_EMIS", keep r (dn (ST_EMIS r))); ("ST_EMSD", keep r (dn (ST_EMSD r)));
     ("ST_QA", keep r (dn (ST_QA r)));
     ("ST_TRAD", keep r (dn (ST_TRAD r))); ("ST_URAD", keep r (dn (ST_URAD r)));
     ("QA_PIXEL", keep r (dn (QA_PIXEL r))); ("QA_RADSAT", keep r (dn (QA_RADSAT r)))].

Definition ndvi_value (r : Raw) : value :=
  nd_value (keep r (reflectance (SR_B5 r))) (keep r (reflectance (SR_B4 r))).
Definition time_radians (r : Raw) : R := (difference_years (raw_time r) EPOCH * (2 * PI))%R.

Definition base_bands (r : Raw) : list Band :=
  masked_bands r ++ [("NDVI", ndvi_value r); ("constant", Some 1%R); ("t", Some (time_radians r))].

(** A pattern without metacharacter. *)
Fixpoint literal (p : string) : bool :=
  match p with
  | EmptyString => true
  | String c p' => (negb (Ascii.eqb c ".") && literal p')%bool
  end.

Definition term_bands (base : string) (g : R -> R) (k : nat) (t : R) : list Band :=
  combine (getNames base (harmonicFrequencies k))
          (map (fun i => Some (g (t * INR i)%R)) (harmonicFrequencies k)).

Definition base_image (r : Raw) : Image :=
  mkImage (base_bands r) (Some (raw_time r)) (raw_id r) None.

Definition prepared (k : nat) (r : Raw) : Image :=
  mkImage (base_bands r ++ term_bands "cos_" cos k (time_radians r)
                        ++ term_bands "sin_" sin k (time_radians r))
          (Some (raw_time r)) (raw_id r) None.

Definition design_bands (k : nat) (r : Raw) : list Band :=
  [("constant", Some 1%R); ("t", Some (time_radians r))]
  ++ term_bands "cos_" cos k (time_radians r)
  ++ term_bands "sin_" sin k (time_radians r).

(** The catalog images the date filter of the script keeps. *)
Definition in_study_period (r : Raw) : bool :=
  in_range (fromYMD 2013 1 1) (fromYMD 2024 1 1) (catalog r).

Definition observations (landsat8Sr : list Raw) : list Raw :=
  filter in_study_period landsat8Sr.

(** The regressors of an observation, as numbers. *)
Definition design_row (k : nat) (r : Raw) : list R :=
  [1%R; time_radians r]
  ++ map (fun i => cos (time_radians r * INR i)) (harmonicFrequencies k)
  ++ map (fun i => sin (time_radians r * INR i)) (harmonicFrequencies k).

Definition dot (u v : list R) : R :=
  Rsum (map (fun p => (fst p * snd p)%R) (combine u v)).

(** An observation with its fitted band. *)
Definition fitted_image (k : nat) (r : Raw) (v : value) : Image :=
  with_bands (prepared k r) (bands (prepared k r) ++ [("fitted", v)]).

(** The value of the band [fitted] for given coefficient bands. *)
Definition fitted_value (k : nat) (r : Raw) (vs : list value) : value :=
  reduce_values Rsum
    (map (fun p => vmap2 Rmult (Some (fst p)) (snd p)) (combine (design_row k r) vs)).

(** The coefficient image with given band values. *)
Definition coefficient_image (k : nat) (vs : list value) : Image :=
  computed (combine (independents k) vs).

Definition amplitude_value (k : nat) (vs : list value) (i : nat) : value :=
  vmap2 Rmult (vmap2 hypot_R (nth (1 + k + i) vs None) (nth (1 + i) vs None)) (Some 5%R).

Definition phase_value (k : nat) (vs : list value) (i : nat) : value :=
  vmap (unitScale_R (- PI) PI)
       (vmap2 angle_R (nth (1 + k + i) vs None) (nth (1 + i) vs None)).

(** The rows that reach the regression: the observations whose NDVI is not
    masked, each as its design row followed by the NDVI. *)
Definition ndvi_is_valid (r : Raw) : bool :=
  match ndvi_value r with Some _ => true | None => false end.

Definition valid_observations (obs : list Raw) : list Raw := filter ndvi_is_valid obs.

Definition regression_rows (k : nat) (obs : list Raw) : list (list R) :=
  flat_map (fun r => match ndvi_value r with
                     | Some y => [design_row k r ++ [y]]
                     | None => []
                     end) obs.

(** The bands of the coefficient image for a solution or for none. *)
Definition coefficient_values (k : nat) (a : option (list R)) : list value :=
  match a with
  | Some cs => map Some cs
  | None => repeat None (2 + 2 * k)
  end.

(** All bands of the coefficient image after the three reassignments. *)
Definition stack_names (k : nat) : list string :=
  independents k ++ ampNames k ++ phaseNames k ++ ["NDVI_mean"].

Definition stack_values (k : nat) (vs : list value) (m : value) : list value :=
  vs ++ map (amplitude_value k vs) (harmonicFrequencies k)
     ++ map (phase_value k vs) (harmonicFrequencies k) ++ [m].

(** Stored values: multiplied by 10000 and cast to 16 bits. *)
Definition stored (to_integer : R -> Z) (v : value) : value :=
  vmap (toShort_R to_integer) (vmap2 Rmult v (Some 10000%R)).

(** The observations of a year's window, June 1 (included) to September 30
    (excluded). *)
Definition in_window (year : Z) (r : Raw) : bool :=
  ((fromYMD year 6 1 <=? raw_time r) && (raw_time r <? fromYMD year 9 30))%Z%bool.

Definition window (year : Z) (obs : list Raw) : list Raw := filter (in_window year) obs.

(** The median of the fitted values of a year's window. *)
Definition yearly_median (median : list R -> R) (fv : Raw -> value) (obs : list Raw)
    (year : Z) : value :=
  reduce_values median (map fv (window year obs)).

(** The band names of a prepared image: they do not depend on the pixel
    values. *)
Definition prepared_names (k : nat) : list string :=
  ["SR_B1"; "SR_B2"; "SR_B3"; "SR_B4"; "SR_B5"; "SR_B6"; "SR_B7"; "SR_QA_AEROSOL";
   "ST_B10"; "ST_ATRAN"; "ST_CDIST"; "ST_DRAD"; "ST_EMIS"; "ST_EMSD"; "ST_QA";
   "ST_TRAD"; "ST_URAD"; "QA_PIXEL"; "QA_RADSAT"; "NDVI"; "constant"; "t"]
  ++ getNames "cos_" (harmonicFrequencies k) ++ getNames "sin_" (harmonicFrequencies k).

(** The one-band images that [yearlyNDVI] holds: one for each position of
    [stepList] whose window is not empty. *)
Definition yearly_band (median : list R -> R) (fv : Raw -> value) (obs : list Raw)
    (p : nat * Z) : list Image :=
  match window (snd p) obs with
  | [] => []
  | _ :: _ =>
      [mkImage [("fitted", yearly_median median fv obs (snd p))]
               (Some (fromYMD (snd p) 6 1)) (string_of_nat (fst p)) (Some 1%Z)]
  end.

(** The value of the band with a given name ([None] also when it is absent). *)
Definition band_value (n : string) (img : Image) : value :=
  match filter (fun b : Band => String.eqb n (fst b)) (bands img) with
  | b :: _ => snd b
  | [] => None
  end.

(** The band values of the coefficient image at the pixel. *)
Definition solution_values (k : nat) (ols : list (list R) -> list R -> list R)
    (rank_deficient : list (list R) -> bool) (obs : list Raw) : list value :=
  coefficient_values k (linearRegression ols rank_deficient (2 + 2 * k) (regression_rows k obs)).

(** ** Sample inputs *)

(** A clear, unsaturated catalog pixel acquired at time [t]. *)
Definition clear_scene (t : Z) : Raw :=
  mkRaw t "LC08_scene" 0 0 0 9000 20000 0 0 0 0 0 0 0 0 0 0 0 0 21824 0.

(** One clear scene on July 15 of each of the given years. *)
Definition july_series (years : list Z) : list Raw :=
  map (fun y => clear_scene (fromYMD y 7 15)) years.

(** Stand-ins for the numeric kernels of the platform. *)
Definition zero_solution (k : nat) (X : list (list R)) (y : list R) : list R :=
  repeat 0%R (2 + 2 * k).
Definition never_deficient (X : list (list R)) : bool := false.
Definition first_value (l : list R) : R := hd 0%R l.

(** The years of [stepList] that have an observation in their window. *)
Definition has_window (obs : list Raw) (year : Z) : bool :=
  match window year obs with [] => false | _ :: _ => true end.

(** A raster series of four clear scenes acquired at the same time. *)
Definition four_scenes : list Scene :=
  repeat (fun _ : Pixel => clear_scene (fromYMD 2015 7 15)) 4.

(** The columns of a design matrix with [n] columns are linearly dependent:
    some non-zero combination of them vanishes on every row. *)
Definition column_dependent (n : nat) (X : list (list R)) : Prop :=
  exists u : list R,
    List.length u = n /\ (exists j, nth j u 0%R <> 0%R) /\
    forall row, In row X -> dot row u = 0%R.

(** The exact rank test, as a stand-in for the numerical one of the platform. *)
Definition exactly_deficient (n : nat) (X : list (list R)) : bool :=
  if excluded_middle_informative (column_dependent n X) then true else false.

(** * Properties *)

(** ** Names and selectors *)

Example independents_3 :
  independents 3 = ["constant"; "t"; "cos_1"; "cos_2"; "cos_3"; "sin_1"; "sin_2"; "sin_3"].
Proof. reflexivity. Qed.

Example EPOCH_is_zero : EPOCH = 0%Z.
Proof. reflexivity. Qed.

Example fromYMD_2013_06_01 : fromYMD 2013 6 1 = 1370044800000%Z.
Proof. reflexivity. Qed.

Lemma maskL8sr_catalog r :
  maskL8sr (catalog r) = Ok (mkImage (masked_bands r) (Some (raw_time r)) (raw_id r) None).
Proof. reflexivity. Qed.

Lemma base_catalog r :
  (i1 <- maskL8sr (catalog r) ;; i2 <- addNDVI i1 ;; i3 <- addConstant i2 ;; addTime i3)
  = Ok (mkImage (base_bands r) (Some (raw_time r)) (raw_id r) None).
Proof. reflexivity. Qed.

Lemma string_of_nat_inj i j : string_of_nat i = string_of_nat j -> i = j.
Proof.
  unfold string_of_nat. intros H.
  apply (f_equal NilEmpty.uint_of_string) in H.
  rewrite !NilEmpty.usu in H. injection H as H.
  apply (f_equal Nat.of_uint) in H.
  now rewrite !Unsigned.of_to in H.
Qed.

Lemma re_match_literal p : literal p = true -> forall s, re_match p s = String.eqb p s.
Proof.
  induction p as [|c p IH]; simpl; intros Hp s.
  - now destruct s.
  - apply andb_true_iff in Hp as [Hc Hp].
    apply negb_true_iff in Hc. rewrite Hc. simpl.
    destruct s as [|d s]; [reflexivity|].
    now rewrite IH.
Qed.

Lemma literal_append p q : literal (p ++ q) = (literal p && literal q)%bool.
Proof. induction p as [|c p IH]; simpl; [reflexivity|]. now rewrite IH, andb_assoc. Qed.

Lemma literal_uint d : literal (NilEmpty.string_of_uint d) = true.
Proof. induction d; simpl; auto. Qed.

Lemma literal_string_of_nat n : literal (string_of_nat n) = true.
Proof. apply literal_uint. Qed.

Lemma append_inj_l p s s' : (p ++ s = p ++ s')%string -> s = s'.
Proof. induction p; simpl; intros H; [assumption|]. injection H as H. auto. Qed.

Lemma getNames_length base l : List.length (getNames base l) = List.length l.
Proof. apply length_map. Qed.



Lemma select_bands_app ps qs bs :
  select_bands (ps ++ qs) bs =
  (m <- select_bands ps bs ;; r <- select_bands qs bs ;; Ok (m ++ r)).
Proof.
  induction ps as [|p ps IH]; simpl.
  - now destruct (select_bands qs bs).
  - destruct (select1 p bs) as [m|e]; simpl; [|reflexivity].
    rewrite IH. destruct (select_bands ps bs) as [m'|e]; simpl; [|reflexivity].
    destruct (select_bands qs bs) as [r|e]; simpl; [|reflexivity].
    now rewrite app_assoc.
Qed.

(** Every selector picks exactly one band. *)
Lemma select_bands_each names vals bs :
  Forall2 (fun n v => filter (fun b => re_match n (fst b)) bs = [(n, v)]) names vals ->
  select_bands names bs = Ok (combine names vals).
Proof.
  induction 1 as [|n v names vals H _ IH]; simpl; [reflexivity|].
  unfold select1. rewrite H. simpl. now rewrite IH.
Qed.

Lemma Forall2_map_same {A B C : Type} (P : B -> C -> Prop) (f : A -> B) (g : A -> C) l :
  (forall x, In x l -> P (f x) (g x)) -> Forall2 P (map f l) (map g l).
Proof.
  induction l as [|a l IH]; simpl; intros H; constructor; auto.
Qed.

Lemma filter_named_none (p : string) (nf : nat -> string) (vf : nat -> value) l :
  (forall j, In j l -> re_match p (nf j) = false) ->
  filter (fun b : Band => re_match p (fst b)) (combine (map nf l) (map vf l)) = [].
Proof.
  induction l as [|a l IH]; simpl; intros H; [reflexivity|].
  rewrite (H a) by auto. auto.
Qed.

Lemma filter_named_one (p : string) (nf : nat -> string) (vf : nat -> value) l i :
  NoDup l -> In i l ->
  (forall j, re_match p (nf j) = Nat.eqb i j) ->
  filter (fun b : Band => re_match p (fst b)) (combine (map nf l) (map vf l)) = [(nf i, vf i)].
Proof.
  intros Hnd Hin Hm. induction l as [|a l IH]; simpl; [contradiction|].
  inversion Hnd as [|? ? Ha Hl]; subst.
  rewrite Hm. destruct (Nat.eqb_spec i a) as [->|Hne].
  - f_equal. apply filter_named_none. intros j Hj. rewrite Hm.
    apply Nat.eqb_neq. intros ->. contradiction.
  - destruct Hin as [->|Hin]; [contradiction|]. auto.
Qed.

Lemma re_match_same_prefix (pre : string) i j :
  literal pre = true ->
  re_match (pre ++ string_of_nat i) (pre ++ string_of_nat j) = Nat.eqb i j.
Proof.
  intros Hp. rewrite re_match_literal
    by (rewrite literal_append, Hp, literal_string_of_nat; reflexivity).
  destruct (Nat.eqb_spec i j) as [->|Hne].
  - apply String.eqb_refl.
  - apply String.eqb_neq. intros E. apply append_inj_l in E.
    apply string_of_nat_inj in E. contradiction.
Qed.

Lemma map_snd_combine {A B : Type} (l : list A) (l' : list B) :
  List.length l = List.length l' -> map snd (combine l l') = l'.
Proof.
  revert l'. induction l as [|a l IH]; intros [|b l']; simpl; intros H; try discriminate; auto.
  f_equal. auto.
Qed.

Lemma map_fst_combine {A B : Type} (l : list A) (l' : list B) :
  List.length l = List.length l' -> map fst (combine l l') = l.
Proof.
  revert l'. induction l as [|a l IH]; intros [|b l']; simpl; intros H; try discriminate; auto.
  f_equal. auto.
Qed.

Lemma Image_constant_bands l :
  map snd (bands (Image_constant l)) = map Some l /\
  List.length (bands (Image_constant l)) = List.length l.
Proof.
  unfold Image_constant, computed; cbn [bands]. split.
  - apply map_snd_combine. now rewrite !length_map, length_seq.
  - rewrite length_combine, !length_map, length_seq. apply Nat.min_id.
Qed.

Lemma rename_values names (img : Image) vs :
  map snd (bands img) = vs -> List.length names = List.length vs ->
  rename names img = Ok (with_bands img (combine names vs)).
Proof.
  intros Hv Hl. unfold rename, rename_bands.
  rewrite <- (length_map snd (bands img)), Hv, Hl, Nat.eqb_refl. simpl. reflexivity.
Qed.

Lemma binop_broadcast_left f (a b : Image) n x :
  bands a = [(n, x)] ->
  exists tf, binop f a b = Ok (computed tf) /\
             map snd tf = map (vmap2 f x) (map snd (bands b)).
Proof.
  intros Ha. unfold binop. rewrite Ha.
  destruct (bands b) as [|[n1 y1] [|b2 bs]]; eexists; (split; [reflexivity|]).
  - reflexivity.
  - reflexivity.
  - rewrite !map_map. reflexivity.
Qed.

(** [time.multiply(frequencies)], then a function of the angle, renamed. *)
Lemma harmonic_term (a : Image) n t l :
  bands a = [(n, Some t)] ->
  exists tf, multiply a (Image_constant (map INR l)) = Ok tf /\
    forall (g : R -> R) names, List.length names = List.length l ->
      rename names (unop g tf)
      = Ok (computed (combine names (map (fun i => Some (g (t * INR i)%R)) l))).
Proof.
  intros Ha.
  destruct (Image_constant_bands (map INR l)) as [Hv Hn].
  destruct (binop_broadcast_left Rmult a (Image_constant (map INR l)) n (Some t) Ha)
    as (tf & Hm & Htf).
  exists (computed tf). split; [exact Hm|]. intros g names Hl.
  rewrite (rename_values names _ (map (fun i => Some (g (t * INR i)%R)) l)).
  - reflexivity.
  - cbn [unop computed bands with_bands]. rewrite map_map. cbn [snd].
    rewrite <- (map_map snd (vmap g)), Htf, Hv, !map_map. reflexivity.
  - now rewrite length_map.
Qed.

Lemma addBands_fresh (dst src : Image) :
  (forall b, In b (bands src) -> has_name (fst b) (bands dst) = false) ->
  addBands dst src = with_bands dst (bands dst ++ bands src).
Proof.
  intros H. unfold addBands. f_equal. f_equal.
  rewrite <- (map_id (bands src)) at 2. apply map_ext_in.
  intros [n v] Hb. rewrite (H _ Hb). reflexivity.
Qed.

Lemma in_term_bands base g k t b :
  In b (term_bands base g k t) -> exists i, fst b = (base ++ string_of_nat i)%string.
Proof.
  unfold term_bands, getNames. intros H. destruct b as [n v].
  apply in_combine_l in H. apply in_map_iff in H as (i & <- & _). now exists i.
Qed.

Lemma has_name_app n (a b : list Band) :
  has_name n (a ++ b) = (has_name n a || has_name n b)%bool.
Proof. apply existsb_app. Qed.

Lemma has_name_term_bands n base g k t :
  (forall i, String.eqb n (base ++ string_of_nat i) = false) ->
  has_name n (term_bands base g k t) = false.
Proof.
  intros H. unfold has_name. apply not_true_is_false. intros E.
  apply existsb_exists in E as (b & Hb & E).
  apply in_term_bands in Hb as (i & Hi). rewrite Hi, H in E. discriminate.
Qed.

Lemma prepare_catalog k r : prepare k (catalog r) = Ok (prepared k r).
Proof.
  change (prepare k (catalog r))
    with (addHarmonics k (harmonicFrequencies k) (base_image r)).
  unfold addHarmonics.
  change (select ["t"] (base_image r))
    with (Ok (with_bands (base_image r) [("t", Some (time_radians r))])).
  cbn [bind].
  assert (Hlen : forall base, List.length (getNames base (harmonicFrequencies k))
                              = List.length (harmonicFrequencies k))
    by (intros; apply getNames_length).
  destruct (harmonic_term (with_bands (base_image r) [("t", Some (time_radians r))])
              "t" (time_radians r) (harmonicFrequencies k) eq_refl) as (tf & -> & Hg).
  cbn [bind]. unfold cosNames, sinNames. rewrite !Hg by apply Hlen. cbn [bind].
  fold (term_bands "cos_" cos k (time_radians r)).
  fold (term_bands "sin_" sin k (time_radians r)).
  rewrite (addBands_fresh (base_image r)).
  2:{ intros b Hb. apply (in_term_bands "cos_" cos k (time_radians r)) in Hb as (i & ->).
      generalize (string_of_nat i). intros s. reflexivity. }
  rewrite addBands_fresh.
  2:{ intros b Hb. apply (in_term_bands "sin_" sin k (time_radians r)) in Hb as (i & ->).
      cbn [with_bands bands computed]. rewrite has_name_app.
      rewrite (has_name_term_bands _ "cos_") by (intros; reflexivity).
      generalize (string_of_nat i). intros s. reflexivity. }
  unfold prepared, with_bands, base_image, computed. cbn [bands time_start system_index valid].
  rewrite <- app_assoc. reflexivity.
Qed.

Lemma filter_prepared (f : Band -> bool) k r :
  filter f (bands (prepared k r)) =
  filter f (base_bands r) ++ filter f (term_bands "cos_" cos k (time_radians r))
                          ++ filter f (term_bands "sin_" sin k (time_radians r)).
Proof. unfold prepared. cbn [bands]. now rewrite !filter_app. Qed.

Lemma filter_term_none p base g k t :
  (forall s, re_match p (base ++ s) = false) ->
  filter (fun b : Band => re_match p (fst b)) (term_bands base g k t) = [].
Proof. intros H. apply filter_named_none. intros; apply H. Qed.

Lemma filter_term_one base g k t i :
  literal base = true -> In i (harmonicFrequencies k) ->
  filter (fun b : Band => re_match (base ++ string_of_nat i) (fst b)) (term_bands base g k t)
  = [((base ++ string_of_nat i)%string, Some (g (t * INR i)%R))].
Proof.
  intros Hb Hi. unfold term_bands, getNames.
  apply (filter_named_one _ (fun j => (base ++ string_of_nat j)%string)
                            (fun j => Some (g (t * INR j)%R))).
  - apply seq_NoDup.
  - exact Hi.
  - intros j. now apply re_match_same_prefix.
Qed.

Lemma select_term_bands base g base' g' k r :
  literal base = true ->
  (forall s, filter (fun b : Band => re_match (base ++ s) (fst b)) (base_bands r) = []) ->
  (forall s s', re_match (base ++ s) (base' ++ s') = false) ->
  (bands (prepared k r) = base_bands r ++ term_bands base g k (time_radians r)
                                         ++ term_bands base' g' k (time_radians r) \/
   bands (prepared k r) = base_bands r ++ term_bands base' g' k (time_radians r)
                                         ++ term_bands base g k (time_radians r)) ->
  select_bands (getNames base (harmonicFrequencies k)) (bands (prepared k r))
  = Ok (term_bands base g k (time_radians r)).
Proof.
  intros Hlit Hbase Hother Hshape. apply select_bands_each.
  unfold getNames. apply Forall2_map_same. intros i Hi.
  destruct Hshape as [-> | ->]; rewrite !filter_app, Hbase, (filter_term_one base) by assumption;
    rewrite (filter_term_none _ base') by (intros; apply Hother); reflexivity.
Qed.

Lemma select_independents k r :
  select_bands (independents k) (bands (prepared k r)) = Ok (design_bands k r).
Proof.
  unfold independents, design_bands. rewrite !select_bands_app.
  assert (H0 : select_bands ["constant"; "t"] (bands (prepared k r))
               = Ok [("constant", Some 1%R); ("t", Some (time_radians r))]).
  { cbn [select_bands]. unfold select1. rewrite !filter_prepared.
    rewrite !filter_term_none by (intros; reflexivity). reflexivity. }
  rewrite H0. cbn [bind].
  unfold cosNames, sinNames.
  rewrite (select_term_bands "cos_" cos "sin_" sin); auto;
    try (intros; reflexivity).
  rewrite (select_term_bands "sin_" sin "cos_" cos); auto;
    try (intros; reflexivity).
Qed.

Lemma select_dependent k r :
  select_bands [dependent] (bands (prepared k r)) = Ok [("NDVI", ndvi_value r)].
Proof.
  cbn [select_bands]. unfold select1. rewrite !filter_prepared.
  rewrite !filter_term_none by (intros; reflexivity). reflexivity.
Qed.

(** ** The feature builder *)

Lemma mapM_ok {A B : Type} (f : A -> result B) (h : A -> B) l :
  (forall x, In x l -> f x = Ok (h x)) -> mapM f l = Ok (map h l).
Proof.
  induction l as [|a l IH]; simpl; intros H; [reflexivity|].
  rewrite (H a) by auto. simpl. rewrite IH by auto. reflexivity.
Qed.

Lemma mapM_map_ok {A B C : Type} (f : B -> result C) (g : A -> B) (h : A -> C) l :
  (forall x, In x l -> f (g x) = Ok (h x)) -> mapM f (map g l) = Ok (map h l).
Proof.
  induction l as [|a l IH]; simpl; intros H; [reflexivity|].
  rewrite (H a) by auto. simpl. rewrite IH by auto. reflexivity.
Qed.

Lemma filter_map_comm {A B : Type} (f : B -> bool) (g : A -> B) l :
  filter f (map g l) = map g (filter (fun x => f (g x)) l).
Proof.
  induction l as [|a l IH]; simpl; [reflexivity|].
  destruct (f (g a)); simpl; now rewrite IH.
Qed.

Lemma harmonicLandsat_eq k landsat8Sr :
  harmonicLandsat k landsat8Sr = Ok (map (prepared k) (observations landsat8Sr)).
Proof.
  unfold harmonicLandsat, filterDate, observations. rewrite filter_map_comm.
  apply mapM_map_ok. intros r _. apply prepare_catalog.
Qed.

Lemma filter_none {A : Type} (f : A -> bool) l :
  (forall x, In x l -> f x = false) -> filter f l = [].
Proof.
  induction l as [|a l IH]; simpl; intros H; [reflexivity|].
  rewrite (H a) by auto. auto.
Qed.

Lemma term_bands_names base g k t :
  map fst (term_bands base g k t) = getNames base (harmonicFrequencies k).
Proof. apply map_fst_combine. unfold getNames. now rewrite !length_map. Qed.

Lemma term_bands_values base g k t :
  map snd (term_bands base g k t)
  = map (fun i => Some (g (t * INR i)%R)) (harmonicFrequencies k).
Proof. apply map_snd_combine. unfold getNames. now rewrite !length_map. Qed.

Lemma design_bands_names k r : map fst (design_bands k r) = independents k.
Proof.
  unfold design_bands, independents. rewrite !map_app, !term_bands_names. reflexivity.
Qed.

Lemma design_bands_values k r : map snd (design_bands k r) = map Some (design_row k r).
Proof.
  unfold design_bands, design_row. rewrite !map_app, !term_bands_values, !map_map. reflexivity.
Qed.

Lemma design_row_length k r : List.length (design_row k r) = 2 + 2 * k.
Proof.
  unfold design_row, harmonicFrequencies. rewrite !length_app, !length_map, !length_seq.
  simpl. lia.
Qed.

Lemma independents_length k : List.length (independents k) = 2 + 2 * k.
Proof.
  unfold independents, cosNames, sinNames, getNames, harmonicFrequencies.
  rewrite !length_app, !length_map, !length_seq. simpl. lia.
Qed.

(** C3.  For every observation the bands that [select(independents)] takes
    from the prepared image are, in this order, the constant 1, the time
    term [t], the [k] cosine terms [cos(i * t)] named [cos_1 .. cos_k] and
    the [k] sine terms [sin(i * t)] named [sin_1 .. sin_k]: [2 + 2k] columns. *)
Theorem design_row_ordering (k : nat) (r : Raw) :
  exists img s,
    prepare k (catalog r) = Ok img /\
    select (independents k) img = Ok s /\
    bandNames s =
      ["constant"; "t"]
      ++ map (fun i => ("cos_" ++ string_of_nat i)%string) (seq 1 k)
      ++ map (fun i => ("sin_" ++ string_of_nat i)%string) (seq 1 k) /\
    bandValues s =
      [Some 1%R; Some (time_radians r)]
      ++ map (fun i => Some (cos (INR i * time_radians r))) (seq 1 k)
      ++ map (fun i => Some (sin (INR i * time_radians r))) (seq 1 k) /\
    List.length (bands s) = 2 + 2 * k.
Proof.
  exists (prepared k r), (with_bands (prepared k r) (design_bands k r)).
  split; [apply prepare_catalog|]. split.
  { unfold select. now rewrite select_independents. }
  unfold bandNames, bandValues. cbn [with_bands bands]. split; [|split].
  - rewrite design_bands_names. reflexivity.
  - rewrite design_bands_values. unfold design_row, harmonicFrequencies.
    rewrite !map_app, !map_map. cbn [map app]. do 3 f_equal;
      apply map_ext; intros i; now rewrite Rmult_comm.
  - rewrite <- (length_map snd), design_bands_values, length_map. apply design_row_length.
Qed.

(** C5.  The band [t] of every observation is the time elapsed since
    1970-01-01, in years of 365.2425 days, multiplied by 2 PI. *)
Theorem time_regressor (k : nat) (r : Raw) :
  exists img s,
    prepare k (catalog r) = Ok img /\
    select ["t"] img = Ok s /\
    bands s =
      [("t", Some (IZR (raw_time r - fromYMD 1970 1 1) / IZR MILLIS_PER_YEAR * (2 * PI))%R)] /\
    fromYMD 1970 1 1 = 0%Z /\
    IZR MILLIS_PER_YEAR = (365.2425 * 86400000)%R.
Proof.
  exists (prepared k r), (with_bands (prepared k r) [("t", Some (time_radians r))]).
  split; [apply prepare_catalog|]. split; [|split; [reflexivity|split; [reflexivity|]]].
  - unfold select. cbn [select_bands]. unfold select1. rewrite filter_prepared.
    rewrite !filter_term_none by (intros; reflexivity). reflexivity.
  - unfold MILLIS_PER_YEAR. lra.
Qed.

(** ** Fitted values *)

Lemma binop_pairwise f (a b : Image) :
  List.length (bands a) = List.length (bands b) -> 2 <= List.length (bands a) ->
  binop f a b =
  Ok (computed (map (fun p => (fst (fst p), vmap2 f (snd (fst p)) (snd (snd p))))
                    (combine (bands a) (bands b)))).
Proof.
  intros Hl H2. unfold binop.
  destruct (bands b) as [|[n1 y1] [|b2 bs]] eqn:Eb;
    destruct (bands a) as [|[m1 x1] [|a2 l]] eqn:Ea; simpl in Hl, H2; try lia.
  assert (E : List.length l = List.length bs) by lia.
  cbn [List.length Nat.eqb]. rewrite E, Nat.eqb_refl. reflexivity.
Qed.

Lemma pairwise_values f (A B : list Band) xs vs :
  map snd A = map Some xs -> map snd B = vs ->
  map snd (map (fun p : Band * Band => (fst (fst p), vmap2 f (snd (fst p)) (snd (snd p))))
               (combine A B))
  = map (fun p => vmap2 f (Some (fst p)) (snd p)) (combine xs vs).
Proof.
  revert B xs vs. induction A as [|[n x] A IH]; intros B xs vs HA HB.
  - destruct xs; [reflexivity|discriminate].
  - destruct xs as [|x' xs]; [discriminate|]. simpl in HA. injection HA as -> HA.
    destruct B as [|[m y] B]; simpl in HB; subst vs; [reflexivity|].
    simpl. f_equal. now apply IH.
Qed.


Lemma unmasked_None vs : Forall (fun v => v = None) vs -> unmasked vs = [].
Proof. induction 1 as [|v vs -> _ IH]; simpl; auto. Qed.


Lemma reduce_values_None f vs : Forall (fun v => v = None) vs -> reduce_values f vs = None.
Proof. intros H. unfold reduce_values. now rewrite unmasked_None. Qed.

Lemma has_name_fitted k r : has_name "fitted" (bands (prepared k r)) = false.
Proof.
  unfold prepared. cbn [bands]. rewrite !has_name_app.
  rewrite !has_name_term_bands by (intros; reflexivity). reflexivity.
Qed.

Lemma fitted_eq k r (coeffs : Image) vs :
  map snd (bands coeffs) = vs -> List.length vs = 2 + 2 * k ->
  fitted k coeffs (prepared k r) = Ok (fitted_image k r (fitted_value k r vs)).
Proof.
  intros Hv Hl. unfold fitted, select. rewrite select_independents. cbn [bind].
  unfold multiply. rewrite binop_pairwise.
  2:{ cbn [with_bands bands]. rewrite <- (length_map snd (design_bands k r)), design_bands_values,
        length_map, design_row_length, <- (length_map snd (bands coeffs)), Hv. now symmetry. }
  2:{ cbn [with_bands bands]. rewrite <- (length_map snd (design_bands k r)), design_bands_values,
        length_map, design_row_length. lia. }
  cbn [bind with_bands bands]. unfold Image_reduce, bandValues. cbn [computed bands].
  rewrite (pairwise_values Rmult _ _ (design_row k r) vs (design_bands_values k r) Hv).
  cbn [rename rename_bands List.length Nat.eqb bind with_bands computed bands map snd combine
       time_start system_index valid].
  rewrite addBands_fresh.
  - reflexivity.
  - cbn [bands]. intros b [<-|[]]. apply has_name_fitted.
Qed.


Lemma fitted_value_None k r vs :
  Forall (fun v => v = None) vs -> fitted_value k r vs = None.
Proof.
  intros H. unfold fitted_value. apply reduce_values_None.
  generalize (design_row k r) as u. induction H as [|v vs -> _ IH]; intros [|x u]; simpl;
    constructor; auto.
Qed.

Lemma arrayFlatten_Some k cs :
  List.length cs = 2 + 2 * k ->
  arrayFlatten (independents k) (Some cs) = Ok (coefficient_image k (map Some cs)).
Proof.
  intros Hl. unfold arrayFlatten. rewrite Hl, independents_length, Nat.eqb_refl. reflexivity.
Qed.




(** ** Derived statistics *)

Tactic Notation "explode_list" ident(cs) ident(H) :=
  simpl in H;
  repeat (destruct cs as [|? cs]; [discriminate H|simpl in H]);
  destruct cs; [|discriminate H].

Tactic Notation "each_harmonics" ident(k) :=
  destruct k as [|[|[|[|[|[|[|[|[|[|k]]]]]]]]]]; try (exfalso; lia).

(** The selectors [sin_.] and [cos_.] reach every harmonic only when the
    decimal index has one digit. *)
Lemma derived_closed_form k (vs : list value) (m : value) :
  1 <= k <= 9 -> List.length vs = 2 + 2 * k ->
  amplitude k (coefficient_image k vs)
  = Ok (computed (combine (ampNames k) (map (amplitude_value k vs) (harmonicFrequencies k)))) /\
  phase k (addBands (coefficient_image k vs)
             (computed (combine (ampNames k)
                                (map (amplitude_value k vs) (harmonicFrequencies k)))))
  = Ok (computed (combine (phaseNames k) (map (phase_value k vs) (harmonicFrequencies k)))) /\
  addBands
    (addBands
       (addBands (coefficient_image k vs)
          (computed (combine (ampNames k) (map (amplitude_value k vs) (harmonicFrequencies k)))))
       (computed (combine (phaseNames k) (map (phase_value k vs) (harmonicFrequencies k)))))
    (computed [("NDVI_mean", m)])
  = computed (combine (stack_names k) (stack_values k vs m)).
Proof.
  intros Hk Hl. each_harmonics k; explode_list vs Hl; repeat split; reflexivity.
Qed.

Lemma nth_map_seq {A : Type} (f : nat -> A) (d : A) k i :
  1 <= i <= k -> nth (i - 1) (map f (seq 1 k)) d = f i.
Proof.
  intros Hi. rewrite (nth_indep _ d (f 0)) by (rewrite length_map, length_seq; lia).
  rewrite map_nth, seq_nth by lia. f_equal. lia.
Qed.

Lemma nth_Some (cs : list R) j :
  j < List.length cs -> nth j (map Some cs) None = Some (nth j cs 0%R).
Proof.
  intros H. rewrite (nth_indep _ None (Some 0%R)) by now rewrite length_map.
  apply map_nth.
Qed.

Lemma named_bands_values (names : list string) (vals : list value) :
  List.length names = List.length vals ->
  bandNames (computed (combine names vals)) = names /\
  bandValues (computed (combine names vals)) = vals.
Proof.
  intros H. unfold bandNames, bandValues. cbn [computed bands].
  split; [now apply map_fst_combine | now apply map_snd_combine].
Qed.

Lemma term_names_length base k f :
  List.length (getNames base (harmonicFrequencies k))
  = List.length (map (f : nat -> value) (harmonicFrequencies k)).
Proof. unfold getNames. now rewrite !length_map. Qed.

Lemma hypot_3_4 : hypot_R 3 4 = 5%R.
Proof.
  unfold hypot_R. replace (3 * 3 + 4 * 4)%R with (5 * 5)%R by lra.
  apply sqrt_square. lra.
Qed.

(** The angle computed by [atan2] lies in (-PI, PI]. *)
Lemma atan2_R_range y x : (- PI < atan2_R y x <= PI)%R.
Proof.
  pose proof PI_RGT_0 as Hpi. unfold atan2_R.
  destruct (Rlt_dec 0 x) as [Hx|Hx].
  - pose proof (atan_bound (y / x)). lra.
  - destruct (Rlt_dec x 0) as [Hx'|Hx'].
    + destruct (Rlt_dec y 0) as [Hy|Hy].
      * assert (0 < y / x)%R.
        { unfold Rdiv. replace (y * / x)%R with ((- y) * / (- x))%R.
          - apply Rmult_lt_0_compat; [lra|]. apply Rinv_0_lt_compat. lra.
          - field. lra. }
        pose proof (atan_bound (y / x)).
        pose proof (atan_increasing 0 (y / x) H) as Hi. rewrite atan_0 in Hi. lra.
      * assert (y / x <= 0)%R.
        { unfold Rdiv. replace (y * / x)%R with (- (y * / (- x)))%R.
          - assert (0 <= y * / - x)%R; [|lra].
            apply Rmult_le_pos; [lra|]. left. apply Rinv_0_lt_compat. lra.
          - field. lra. }
        pose proof (atan_bound (y / x)).
        destruct H as [H|H].
        -- pose proof (atan_increasing (y / x) 0 H) as Hi. rewrite atan_0 in Hi. lra.
        -- rewrite H, atan_0. lra.
    + destruct (Rlt_dec 0 y); [lra|]. destruct (Rlt_dec y 0); lra.
Qed.

Lemma unitScale_range a : (- PI < a <= PI)%R -> (0 <= unitScale_R (- PI) PI a <= 1)%R.
Proof.
  intros Ha. pose proof PI_RGT_0 as Hpi. unfold unitScale_R.
  assert (Hd : (0 < PI - - PI)%R) by lra.
  split.
  - apply Rmult_le_pos; [lra|]. left. now apply Rinv_0_lt_compat.
  - apply (Rmult_le_reg_r (PI - - PI)); [assumption|].
    unfold Rdiv. rewrite Rmult_assoc, Rinv_l by lra. lra.
Qed.

(** C1, refuted as stated: with [cos_1 = 4] and [sin_1 = 3] the band
    [amplitude_1] is 25, not [hypot 3 4 = 5]. *)
Lemma amplitude_is_not_hypot :
  ~ (forall (cs : list R) (coeffs amp : Image) (i : nat),
        List.length cs = 8 ->
        arrayFlatten (independents 3) (Some cs) = Ok coeffs ->
        amplitude 3 coeffs = Ok amp ->
        1 <= i <= 3 ->
        nth (i - 1) (bandValues amp) None
        = Some (hypot_R (nth (1 + 3 + i) cs 0%R) (nth (1 + i) cs 0%R))).
Proof.
  intros H.
  specialize (H [0; 0; 4; 0; 0; 3; 0; 0]%R _ _ 1 eq_refl eq_refl eq_refl (conj (le_n 1) (le_S _ _ (le_S _ _ (le_n 1))))).
  cbn in H. injection H as H. rewrite hypot_3_4 in H. lra.
Qed.

(** C1, amended.  For 1 to 9 harmonics and a defined coefficient vector, the
    band [amplitude_i] is [hypot(sin_i, cos_i)] multiplied by the scale factor
    5 of the script. *)
Theorem amplitude_is_scaled_hypot (k : nat) (cs : list R) :
  1 <= k <= 9 -> List.length cs = 2 + 2 * k ->
  exists coeffs amp,
    arrayFlatten (independents k) (Some cs) = Ok coeffs /\
    amplitude k coeffs = Ok amp /\
    bandNames amp = map (fun i => ("amplitude_" ++ string_of_nat i)%string) (seq 1 k) /\
    forall i, 1 <= i <= k ->
      nth (i - 1) (bandValues amp) None
      = Some (hypot_R (nth (1 + k + i) cs 0) (nth (1 + i) cs 0) * 5)%R.
Proof.
  intros Hk Hl.
  assert (Hl' : List.length (map Some cs) = 2 + 2 * k) by now rewrite length_map.
  destruct (derived_closed_form k (map Some cs) None Hk Hl') as (Ha & _ & _).
  do 2 eexists. split; [now apply arrayFlatten_Some|]. split; [exact Ha|].
  destruct (named_bands_values (ampNames k)
              (map (amplitude_value k (map Some cs)) (harmonicFrequencies k))
              (term_names_length _ _ _)) as [Hn Hv].
  split; [exact Hn|]. intros i Hi. rewrite Hv. unfold harmonicFrequencies.
  rewrite nth_map_seq by assumption. unfold amplitude_value.
  rewrite !nth_Some by lia. reflexivity.
Qed.

Lemma amplitude_is_scaled_hypot_witness :
  exists coeffs amp,
    arrayFlatten (independents 3) (Some [0.5; 0; 4; 0; 0; 3; 0; 0]%R) = Ok coeffs /\
    amplitude 3 coeffs = Ok amp /\
    bandNames amp = map (fun i => ("amplitude_" ++ string_of_nat i)%string) (seq 1 3) /\
    forall i, 1 <= i <= 3 ->
      nth (i - 1) (bandValues amp) None
      = Some (hypot_R (nth (1 + 3 + i) [0.5; 0; 4; 0; 0; 3; 0; 0]%R 0)
                      (nth (1 + i) [0.5; 0; 4; 0; 0; 3; 0; 0]%R 0) * 5)%R.
Proof. apply (amplitude_is_scaled_hypot 3 [0.5; 0; 4; 0; 0; 3; 0; 0]%R); [lia|reflexivity]. Defined.

Lemma atan2_R_axes :
  atan2_R 1 0 = (PI / 2)%R /\ atan2_R 0 1 = 0%R.
Proof.
  unfold atan2_R. split.
  - destruct (Rlt_dec 0 0) as [H|_]; [lra|].
    destruct (Rlt_dec 0 1) as [_|H]; [reflexivity|lra].
  - destruct (Rlt_dec 0 1) as [_|H]; [|lra].
    unfold Rdiv. rewrite Rmult_0_l. apply atan_0.
Qed.

(** C4, refuted as stated: with [sin_1 = 0] and [cos_1 = 1] the band
    [phase_1] is 3/4, the rescaled angle PI/2 of the vector [[x = sin_1,
    y = cos_1]], not the rescaled [atan2(sin_1, cos_1) = 0], which is 1/2. *)
Lemma phase_is_not_atan2_sin_cos :
  ~ (forall (cs : list R) (coeffs amp ph : Image) (i : nat),
        List.length cs = 8 ->
        arrayFlatten (independents 3) (Some cs) = Ok coeffs ->
        amplitude 3 coeffs = Ok amp ->
        phase 3 (addBands coeffs amp) = Ok ph ->
        1 <= i <= 3 ->
        nth (i - 1) (bandValues ph) None
        = Some ((atan2_R (nth (1 + 3 + i) cs 0) (nth (1 + i) cs 0) - - PI) / (PI - - PI))%R).
Proof.
  intros H.
  specialize (H [0; 0; 1; 0; 0; 0; 0; 0]%R _ _ _ 1 eq_refl eq_refl eq_refl eq_refl
                (conj (le_n 1) (le_S _ _ (le_S _ _ (le_n 1))))).
  cbn in H. injection H as H. unfold unitScale_R, angle_R in H.
  destruct atan2_R_axes as [E1 E2]. rewrite E1, E2 in H.
  pose proof PI_RGT_0 as Hpi.
  assert (E : ((PI / 2 - - PI) / (PI - - PI) = 3 / 4)%R) by (field; lra).
  assert (E' : ((0 - - PI) / (PI - - PI) = 1 / 2)%R) by (field; lra).
  rewrite E, E' in H. lra.
Qed.

(** C4, amended.  For 1 to 9 harmonics and a defined coefficient vector, the
    band [phase_i] is the angle of the vector [[x = sin_i, y = cos_i]], that
    is [atan2] with ordinate [cos_i] and abscissa [sin_i], rescaled linearly
    from [-PI, PI] to [0, 1]; it lies in [0, 1]. *)
Theorem phase_in_unit_interval (k : nat) (cs : list R) :
  1 <= k <= 9 -> List.length cs = 2 + 2 * k ->
  exists coeffs amp ph,
    arrayFlatten (independents k) (Some cs) = Ok coeffs /\
    amplitude k coeffs = Ok amp /\
    phase k (addBands coeffs amp) = Ok ph /\
    bandNames ph = map (fun i => ("phase_" ++ string_of_nat i)%string) (seq 1 k) /\
    forall i, 1 <= i <= k ->
      exists p,
        nth (i - 1) (bandValues ph) None = Some p /\
        p = ((atan2_R (nth (1 + i) cs 0) (nth (1 + k + i) cs 0) - - PI) / (PI - - PI))%R /\
        (0 <= p <= 1)%R.
Proof.
  intros Hk Hl.
  assert (Hl' : List.length (map Some cs) = 2 + 2 * k) by now rewrite length_map.
  destruct (derived_closed_form k (map Some cs) None Hk Hl') as (Ha & Hp & _).
  do 3 eexists. split; [now apply arrayFlatten_Some|]. split; [exact Ha|]. split; [exact Hp|].
  destruct (named_bands_values (phaseNames k)
              (map (phase_value k (map Some cs)) (harmonicFrequencies k))
              (term_names_length _ _ _)) as [Hn Hv].
  split; [exact Hn|]. intros i Hi. rewrite Hv. unfold harmonicFrequencies.
  rewrite nth_map_seq by assumption. unfold phase_value.
  rewrite !nth_Some by lia. eexists. split; [reflexivity|]. split; [reflexivity|].
  apply unitScale_range, atan2_R_range.
Qed.

Lemma phase_in_unit_interval_witness :
  exists coeffs amp ph,
    arrayFlatten (independents 3) (Some [0.5; 0; 4; 0; 0; 3; 0; 0]%R) = Ok coeffs /\
    amplitude 3 coeffs = Ok amp /\
    phase 3 (addBands coeffs amp) = Ok ph /\
    bandNames ph = map (fun i => ("phase_" ++ string_of_nat i)%string) (seq 1 3) /\
    forall i, 1 <= i <= 3 ->
      exists p,
        nth (i - 1) (bandValues ph) None = Some p /\
        p = ((atan2_R (nth (1 + i) [0.5; 0; 4; 0; 0; 3; 0; 0]%R 0)
                      (nth (1 + 3 + i) [0.5; 0; 4; 0; 0; 3; 0; 0]%R 0) - - PI) / (PI - - PI))%R /\
        (0 <= p <= 1)%R.
Proof. apply (phase_in_unit_interval 3 [0.5; 0; 4; 0; 0; 3; 0; 0]%R); [lia|reflexivity]. Defined.

(** ** The regression at the pixel *)

Lemma all_unmasked_Some xs : all_unmasked (map Some xs) = Some xs.
Proof. induction xs as [|x xs IH]; simpl; [reflexivity|]. now rewrite IH. Qed.

Lemma all_unmasked_row xs (v : value) :
  all_unmasked (map Some xs ++ [v])
  = match v with Some y => Some (xs ++ [y]) | None => None end.
Proof.
  induction xs as [|x xs IH]; simpl.
  - now destruct v.
  - rewrite IH. now destruct v.
Qed.

Lemma select_regression_bands k r :
  select (independents k ++ [dependent]) (prepared k r)
  = Ok (with_bands (prepared k r) (design_bands k r ++ [("NDVI", ndvi_value r)])).
Proof.
  unfold select. rewrite select_bands_app, select_independents, select_dependent. reflexivity.
Qed.

Lemma regression_inputs_eq k obs :
  regression_inputs k (map (prepared k) obs) = Ok (regression_rows k obs).
Proof.
  unfold regression_inputs.
  rewrite (mapM_map_ok _ _ (fun r => with_bands (prepared k r)
                                       (design_bands k r ++ [("NDVI", ndvi_value r)])))
    by (intros; apply select_regression_bands).
  cbn [bind]. f_equal. unfold regression_rows. rewrite flat_map_concat_map, map_map.
  rewrite flat_map_concat_map. f_equal. apply map_ext. intros r.
  unfold bandValues. cbn [with_bands bands]. rewrite map_app, design_bands_values.
  cbn [map snd]. rewrite all_unmasked_row. now destruct (ndvi_value r).
Qed.

Lemma harmonicTrend_eq k ols rd obs :
  obs <> [] ->
  harmonicTrend k ols rd (map (prepared k) obs)
  = Ok (linearRegression ols rd (2 + 2 * k) (regression_rows k obs)).
Proof.
  intros H. unfold harmonicTrend. destruct obs as [|r obs]; [contradiction|].
  rewrite <- independents_length.
  change (map (prepared k) (r :: obs)) with (prepared k r :: map (prepared k) obs) at 1.
  cbv iota. rewrite regression_inputs_eq. reflexivity.
Qed.

Lemma regression_rows_length k obs :
  List.length (regression_rows k obs) = List.length (valid_observations obs).
Proof.
  unfold regression_rows, valid_observations, ndvi_is_valid.
  induction obs as [|r obs IH]; [reflexivity|].
  cbn [flat_map filter]. destruct (ndvi_value r); cbn [app List.length]; now rewrite IH.
Qed.

Lemma regression_rows_design k obs :
  map (firstn (2 + 2 * k)) (regression_rows k obs)
  = map (design_row k) (valid_observations obs).
Proof.
  unfold regression_rows, valid_observations, ndvi_is_valid.
  induction obs as [|r obs IH]; [reflexivity|].
  cbn [flat_map filter]. destruct (ndvi_value r) as [y|]; [|exact IH].
  cbn [app map]. rewrite IH. f_equal.
  rewrite <- (design_row_length k r), firstn_app, Nat.sub_diag, firstn_all.
  cbn [firstn]. apply app_nil_r.
Qed.

(** No solution when the valid observations are fewer than the columns or
    the design matrix is found rank-deficient. *)
Lemma linearRegression_no_data k ols (rd : list (list R) -> bool) obs :
  List.length (valid_observations obs) < 2 + 2 * k \/
  rd (map (design_row k) (valid_observations obs)) = true ->
  linearRegression ols rd (2 + 2 * k) (regression_rows k obs) = None.
Proof.
  intros H. unfold linearRegression.
  rewrite regression_rows_length, regression_rows_design.
  destruct H as [H| ->].
  - apply Nat.ltb_lt in H. now rewrite H.
  - now rewrite orb_true_r.
Qed.

Lemma no_data_bands (names : list string) :
  map (fun n => (n, @None R)) names = combine names (repeat None (List.length names)).
Proof. induction names as [|n names IH]; simpl; [reflexivity|]. now rewrite IH. Qed.

Lemma coefficient_values_length k a :
  (forall cs, a = Some cs -> List.length cs = 2 + 2 * k) ->
  List.length (coefficient_values k a) = 2 + 2 * k.
Proof.
  intros H. destruct a as [cs|]; simpl.
  - rewrite length_map. now apply H.
  - rewrite repeat_length. reflexivity.
Qed.

Lemma arrayFlatten_eq k a :
  (forall cs, a = Some cs -> List.length cs = 2 + 2 * k) ->
  arrayFlatten (independents k) a = Ok (coefficient_image k (coefficient_values k a)).
Proof.
  intros H. destruct a as [cs|].
  - apply arrayFlatten_Some. now apply H.
  - unfold arrayFlatten, coefficient_image, coefficient_values.
    rewrite no_data_bands, independents_length. reflexivity.
Qed.

Lemma coefficient_image_values k vs :
  List.length vs = 2 + 2 * k -> map snd (bands (coefficient_image k vs)) = vs.
Proof.
  intros H. cbn [coefficient_image computed bands]. apply map_snd_combine.
  now rewrite independents_length.
Qed.

Lemma NDVI_mean_eq k obs :
  obs <> [] ->
  NDVI_mean (map (prepared k) obs)
  = Ok (computed [("NDVI_mean", reduce_values mean (map ndvi_value obs))]).
Proof.
  intros H. unfold NDVI_mean.
  rewrite (mapM_map_ok _ _ (fun r => with_bands (prepared k r) [("NDVI", ndvi_value r)])).
  2:{ intros r _. unfold select. now rewrite select_dependent. }
  cbn [bind]. destruct obs as [|r obs]; [contradiction|].
  unfold Collection_reduce. cbn [map with_bands bands List.length seq bandNames bandValues
                                 fst snd nth rename rename_bands Nat.eqb bind computed combine
                                 time_start system_index valid].
  do 5 f_equal. rewrite map_map. reflexivity.
Qed.

(** ** Yearly composites *)

Lemma prepared_bandNames k r : map fst (bands (prepared k r)) = prepared_names k.
Proof.
  unfold prepared, prepared_names. cbn [bands]. rewrite !map_app, !term_bands_names.
  reflexivity.
Qed.

Lemma prepared_names_not_fitted k :
  Forall (fun n => re_match "fitted" (n ++ "") = false) (prepared_names k).
Proof.
  unfold prepared_names. apply Forall_app. split.
  - repeat (constructor; [reflexivity|]). constructor.
  - apply Forall_app; split; apply Forall_forall; intros n Hn;
      apply in_map_iff in Hn as (i & <- & _); reflexivity.
Qed.

(** In a list of names ending with [fitted], the selector [fitted] picks the
    last position only. *)
Lemma filter_fitted (names : list string) (F : nat -> value) :
  Forall (fun n => re_match "fitted" (n ++ "") = false) names ->
  filter (fun b : Band => re_match "fitted" (fst b))
         (map (fun j => ((nth j (names ++ ["fitted"]) "" ++ "")%string, F j))
              (seq 0 (List.length (names ++ ["fitted"]))))
  = [("fitted", F (List.length names))].
Proof.
  intros H. rewrite length_app. cbn [List.length]. rewrite seq_app, map_app, filter_app.
  rewrite filter_none.
  - cbn [app seq map Nat.add]. rewrite nth_middle. reflexivity.
  - intros [n v] Hb. cbn [fst].
    apply in_map_iff in Hb as (j & E & Hj). injection E as <- <-.
    apply in_seq in Hj. rewrite app_nth1 by lia.
    rewrite Forall_forall in H. apply H. apply nth_In. lia.
Qed.

Section Compositor.
Variables (k : nat) (median : list R -> R) (fv : Raw -> value).

Let F (r : Raw) : Image := fitted_image k r (fv r).

Lemma filterDate_fitted year obs :
    filterDate (fromYMD year 6 1) (fromYMD year 9 30) (map F obs) = map F (window year obs).
Proof. unfold filterDate. now rewrite filter_map_comm. Qed.

Lemma fitted_image_value r v :
    nth (List.length (prepared_names k)) (bandValues (fitted_image k r v)) None = v.
Proof.
    unfold bandValues, fitted_image. cbn [with_bands bands].
    rewrite <- (prepared_bandNames k r), map_app, length_map, <- (length_map snd).
    cbn [map snd]. apply nth_middle.
Qed.

Lemma fitted_image_names r v :
    bandNames (fitted_image k r v) = prepared_names k ++ ["fitted"].
Proof.
    unfold bandNames, fitted_image. cbn [with_bands bands].
    now rewrite map_app, prepared_bandNames.
Qed.

  (** The composite of a year: without bands and flagged 0 when the window
      is empty; flagged 1 otherwise, with the median of the fitted values in
      its band [fitted]. *)
Lemma composite_cases obs year :
    let c := composite median (map F obs) year in
    time_start c = Some (fromYMD year 6 1) /\
    match window year obs with
    | [] => valid c = Some 0%Z
    | _ :: _ =>
        valid c = Some 1%Z /\
        select_bands ["fitted"] (bands c) = Ok [("fitted", yearly_median median fv obs year)]
    end.
Proof.
    unfold composite. rewrite filterDate_fitted. unfold yearly_median.
    destruct (window year obs) as [|r w]; [split; reflexivity|].
    set (c := Collection_reduce "" median (map F (r :: w))).
    assert (Hb : bands c =
                 map (fun j => ((nth j (prepared_names k ++ ["fitted"]) "" ++ "")%string,
                                reduce_values median
                                  (map (fun img => nth j (bandValues img) None) (map F (r :: w)))))
                     (seq 0 (List.length (prepared_names k ++ ["fitted"])))).
    { unfold c, Collection_reduce. cbn [map computed bands].
      rewrite <- (length_map fst (bands (F r))).
      change (map fst (bands (F r))) with (bandNames (F r)).
      rewrite (fitted_image_names r (fv r) : bandNames (F r) = _). reflexivity. }
    assert (Hn : bandNames (set_time_start (fromYMD year 6 1) c) <> []).
    { unfold bandNames, set_time_start. cbn [bands]. rewrite Hb, length_app.
      cbn [List.length]. rewrite Nat.add_1_r. cbn [seq map]. discriminate. }
    destruct (bandNames (set_time_start (fromYMD year 6 1) c)) as [|n ns]; [contradiction|].
    cbn [set_valid set_time_start time_start valid bands].
    split; [reflexivity|]. split; [reflexivity|].
    cbn [select_bands]. unfold select1. rewrite Hb.
    rewrite (filter_fitted _ _ (prepared_names_not_fitted k)). cbn [bind app].
    rewrite !map_map. do 4 f_equal. apply map_ext. intros r'. apply fitted_image_value.
Qed.

Lemma yearly_select idxs years obs :
    mapM (select ["fitted"])
      (filterMetadata_valid 1
         (map (fun p => mkImage (bands (snd p)) (time_start (snd p))
                                (string_of_nat (fst p)) (valid (snd p)))
              (combine idxs (map (composite median (map F obs)) years))))
    = Ok (flat_map (yearly_band median fv obs) (combine idxs years)).
Proof.
    unfold filterMetadata_valid.
    revert idxs. induction years as [|y years IH]; intros [|i idxs]; try reflexivity.
    cbn [map combine flat_map filter fst snd valid].
    destruct (composite_cases obs y) as [Ht Hc]. unfold yearly_band at 1. cbn [snd fst].
    destruct (window y obs) as [|r w].
    - rewrite Hc. cbn [Z.eqb app]. apply IH.
    - destruct Hc as [Hv Hs]. rewrite Hv. cbn [Z.eqb Pos.eqb mapM app].
      unfold select at 1. cbn [bands]. rewrite Hs. cbn [bind with_bands time_start
        system_index valid]. rewrite IH, Ht. reflexivity.
Qed.

Lemma yearlyNDVI_eq obs :
    yearlyNDVI median (map F obs)
    = Ok (flat_map (yearly_band median fv obs) (combine (seq 0 11) stepList)).
Proof.
    unfold yearlyNDVI, yearlyComposites, ImageCollection, filterCollection.
    rewrite length_map. apply yearly_select.
Qed.

Lemma toBands_yearly (ps : list (nat * Z)) obs :
    bands (toBands (flat_map (yearly_band median fv obs) ps))
    = flat_map (fun p => match window (snd p) obs with
                         | [] => []
                         | _ :: _ => [((string_of_nat (fst p) ++ "_fitted")%string,
                                       yearly_median median fv obs (snd p))]
                         end) ps.
Proof.
    unfold toBands. cbn [computed bands]. induction ps as [|p ps IH]; [reflexivity|].
    cbn [flat_map]. rewrite flat_map_app, IH. f_equal.
    unfold yearly_band. destruct (window (snd p) obs); reflexivity.
Qed.

Lemma positions :
    combine (seq 0 11) stepList
    = [(0, 2013%Z); (1, 2014%Z); (2, 2015%Z); (3, 2016%Z); (4, 2017%Z); (5, 2018%Z);
       (6, 2019%Z); (7, 2020%Z); (8, 2021%Z); (9, 2022%Z); (10, 2023%Z)].
Proof. reflexivity. Qed.

  (** With an observation in every window the renaming [select] succeeds and
      labels every median with its own year. *)
Lemma yearlyStack_complete obs :
    (forall year, In year stepList -> window year obs <> []) ->
    yearlyStack median (map F obs)
    = Ok (computed (combine year_labels (map (yearly_median median fv obs) stepList))).
Proof.
    intros H. unfold yearlyStack. rewrite yearlyNDVI_eq. cbn [bind].
    unfold select_as, select. rewrite toBands_yearly, positions.
    assert (Hw : forall year, In year stepList ->
                   exists r w, window year obs = r :: w).
    { intros y Hy. specialize (H y Hy). destruct (window y obs) as [|r w]; [contradiction|].
      now exists r, w. }
    cbn [flat_map snd fst].
    destruct (Hw 2013%Z) as (? & ? & ->); [cbn; tauto|].
    destruct (Hw 2014%Z) as (? & ? & ->); [cbn; tauto|].
    destruct (Hw 2015%Z) as (? & ? & ->); [cbn; tauto|].
    destruct (Hw 2016%Z) as (? & ? & ->); [cbn; tauto|].
    destruct (Hw 2017%Z) as (? & ? & ->); [cbn; tauto|].
    destruct (Hw 2018%Z) as (? & ? & ->); [cbn; tauto|].
    destruct (Hw 2019%Z) as (? & ? & ->); [cbn; tauto|].
    destruct (Hw 2020%Z) as (? & ? & ->); [cbn; tauto|].
    destruct (Hw 2021%Z) as (? & ? & ->); [cbn; tauto|].
    destruct (Hw 2022%Z) as (? & ? & ->); [cbn; tauto|].
    destruct (Hw 2023%Z) as (? & ? & ->); [cbn; tauto|].
    reflexivity.
Qed.

Lemma select_bands_missing p ps (bs : list Band) :
    In p ps -> filter (fun b : Band => re_match p (fst b)) bs = [] ->
    exists msg, select_bands ps bs = Err msg.
Proof.
    intros Hin Hf. induction ps as [|q ps IH]; [contradiction|].
    cbn [select_bands]. destruct Hin as [->|Hin].
    - unfold select1. rewrite Hf. eexists. reflexivity.
    - destruct (select1 q bs) as [m|e]; [|eexists; reflexivity]. cbn [bind].
      destruct (IH Hin) as (msg & ->). eexists. reflexivity.
Qed.

  (** The band of a position whose window is empty is missing from the
      stack, and the renaming [select] fails. *)
Lemma yearlyStack_incomplete obs year :
    In year stepList -> window year obs = [] ->
    exists msg, yearlyStack median (map F obs) = Err msg.
Proof.
    intros Hy He. unfold yearlyStack. rewrite yearlyNDVI_eq. cbn [bind].
    unfold select_as, select.
    assert (Hp : exists i, In (i, year) (combine (seq 0 11) stepList) /\ i < 11).
    { rewrite positions. cbn in Hy.
      repeat (destruct Hy as [<-|Hy]; [eexists; split; [cbn; tauto|lia]|]). contradiction. }
    destruct Hp as (i & Hi & Hlt).
    destruct (select_bands_missing (nth i positional_names "") positional_names
                (bands (toBands (flat_map (yearly_band median fv obs)
                                          (combine (seq 0 11) stepList)))))
      as (msg & ->).
    - apply nth_In. cbn. lia.
    - rewrite toBands_yearly. apply filter_none. intros [n v] Hb. cbn [fst].
      apply in_flat_map in Hb as ([j y] & Hj & Hb). cbn [fst snd] in Hb.
      destruct (window y obs) as [|r w] eqn:Ew; [contradiction|].
      destruct Hb as [E|[]]. injection E as <- _.
      assert (j <> i).
      { intros ->. rewrite positions in Hi, Hj. cbn in Hi, Hj.
        repeat (destruct Hi as [Hi|Hi]; [injection Hi as <- <-|]); try contradiction;
          repeat (destruct Hj as [Hj|Hj]; [try discriminate Hj; injection Hj as <-|]);
          try contradiction; congruence. }
      rewrite positions in Hj. cbn in Hj.
      do 11 (destruct i as [|i]; [
        repeat (destruct Hj as [Hj|Hj];
                [injection Hj as <- _; try reflexivity; contradiction|]); contradiction|]).
      lia.
    - eexists. reflexivity.
Qed.

  (** [yearlyComposites] holds the flagged composites only, in the order
      of the years. *)
Lemma valid_composites_years idxs years obs :
    List.length idxs = List.length years ->
    map time_start
      (filterMetadata_valid 1
         (map (fun p => mkImage (bands (snd p)) (time_start (snd p))
                                (string_of_nat (fst p)) (valid (snd p)))
              (combine idxs (map (composite median (map F obs)) years))))
    = map (fun y => Some (fromYMD y 6 1)) (filter (has_window obs) years).
Proof.
    unfold filterMetadata_valid.
    revert idxs. induction years as [|y years IH]; intros [|i idxs] Hl; try discriminate;
      [reflexivity|].
    cbn [map combine filter fst snd valid].
    destruct (composite_cases obs y) as [Ht Hc]. unfold has_window at 1.
    destruct (window y obs) as [|r w].
    - rewrite Hc. cbn [Z.eqb]. apply IH. now injection Hl.
    - destruct Hc as [Hv _]. rewrite Hv. cbn [Z.eqb Pos.eqb map time_start].
      rewrite Ht. f_equal. apply IH. now injection Hl.
Qed.

Lemma yearlyComposites_years obs :
    map time_start (yearlyComposites median (map F obs))
    = map (fun y => Some (fromYMD y 6 1)) (filter (has_window obs) stepList).
Proof.
    unfold yearlyComposites, ImageCollection, filterCollection. rewrite length_map.
    apply valid_composites_years. reflexivity.
Qed.
End Compositor.

(** ** The script at the pixel, in closed form *)

Lemma scaled_and_cast (ti : R -> Z) (img : Image) :
  (scaled <- multiply img (Image_const 10000) ;; Ok (toShort ti scaled))
  = Ok (computed (map (fun b => (fst b, stored ti (snd b))) (bands img))).
Proof.
  unfold multiply, binop. cbn [Image_const computed bands bind].
  unfold toShort, unop, with_bands, computed. cbn [bands time_start system_index valid].
  rewrite map_map. reflexivity.
Qed.

Section Pipeline.
Variables (k : nat) (ols : list (list R) -> list R -> list R)
            (rank_deficient : list (list R) -> bool) (obs : list Raw).

  (** A solution, when there is one, has one coefficient per column. *)
Hypothesis solution_columns :
    forall cs, linearRegression ols rank_deficient (2 + 2 * k) (regression_rows k obs) = Some cs ->
               List.length cs = 2 + 2 * k.
Hypothesis some_image : obs <> [].

Lemma solution_values_length :
    List.length (solution_values k ols rank_deficient obs) = 2 + 2 * k.
Proof. unfold solution_values. now apply coefficient_values_length. Qed.

Lemma coefficients_eq :
    coefficients k ols rank_deficient (map (prepared k) obs)
    = Ok (coefficient_image k (solution_values k ols rank_deficient obs)).
Proof.
    unfold coefficients. rewrite harmonicTrend_eq by assumption. cbn [bind].
    now apply arrayFlatten_eq.
Qed.

Lemma fittedHarmonic_eq :
    fittedHarmonic k ols rank_deficient (map (prepared k) obs)
    = Ok (map (fun r => fitted_image k r
                          (fitted_value k r (solution_values k ols rank_deficient obs))) obs).
Proof.
    unfold fittedHarmonic. rewrite coefficients_eq. cbn [bind].
    apply mapM_map_ok. intros r _. apply fitted_eq.
    - apply coefficient_image_values, solution_values_length.
    - apply solution_values_length.
Qed.

  (** The coefficient image after the three reassignments, and the exported
      raster, for 1 to 9 harmonics. *)
Lemma harmonicTrendCoefficients_eq :
    1 <= k <= 9 ->
    harmonicTrendCoefficients k ols rank_deficient (map (prepared k) obs)
    = Ok (computed (combine (stack_names k)
                            (stack_values k (solution_values k ols rank_deficient obs)
                                          (reduce_values mean (map ndvi_value obs))))).
Proof.
    intros Hk. unfold harmonicTrendCoefficients. rewrite coefficients_eq. cbn [bind].
    destruct (derived_closed_form k (solution_values k ols rank_deficient obs)
                (reduce_values mean (map ndvi_value obs)) Hk solution_values_length)
      as (Ha & Hp & Hs).
    rewrite Ha. cbn [bind]. rewrite Hp. cbn [bind].
    rewrite NDVI_mean_eq by assumption. cbn [bind]. now rewrite Hs.
Qed.

Lemma output_eq (ti : R -> Z) :
    1 <= k <= 9 ->
    output k ols rank_deficient ti (map (prepared k) obs)
    = Ok (computed
            (map (fun b => (fst b, stored ti (snd b)))
                 (combine (stack_names k)
                          (stack_values k (solution_values k ols rank_deficient obs)
                                        (reduce_values mean (map ndvi_value obs)))))).
Proof.
    intros Hk. unfold output. rewrite harmonicTrendCoefficients_eq by assumption.
    cbn [bind]. apply scaled_and_cast.
Qed.
End Pipeline.

Lemma columns_of_ols k ols rd obs :
  (forall X y, List.length (ols X y) = 2 + 2 * k) ->
  forall cs, linearRegression ols rd (2 + 2 * k) (regression_rows k obs) = Some cs ->
             List.length cs = 2 + 2 * k.
Proof.
  intros H cs. unfold linearRegression. destruct (_ || _)%bool; [discriminate|].
  intros E. injection E as <-. apply H.
Qed.

Lemma band_value_fitted k r v : band_value "fitted" (fitted_image k r v) = v.
Proof.
  unfold band_value, fitted_image. cbn [with_bands bands].
  rewrite filter_app. 
  replace (filter (fun b : Band => String.eqb "fitted" (fst b)) (bands (prepared k r)))
    with (@nil Band); [reflexivity|].
  symmetry. apply filter_none. intros b Hb.
  pose proof (has_name_fitted k r) as Hn. unfold has_name in Hn.
  apply not_true_iff_false. intros E.
  assert (existsb (fun b0 : Band => String.eqb "fitted" (fst b0)) (bands (prepared k r)) = true)
    by (apply existsb_exists; eauto).
  congruence.
Qed.

Lemma window_bounds year :
  In year stepList ->
  (fromYMD 2013 1 1 <= fromYMD year 6 1 /\ fromYMD year 9 30 <= fromYMD 2024 1 1)%Z.
Proof.
  intros Hy. cbn in Hy.
  repeat (destruct Hy as [<-|Hy]; [split; vm_compute; discriminate|]).
  contradiction.
Qed.

Lemma window_in_study_period year r :
  In year stepList -> in_window year r = true -> in_study_period r = true.
Proof.
  unfold in_window, in_study_period, in_range. cbn [catalog time_start].
  intros Hy Hw. apply andb_true_iff in Hw as [H1 H2].
  apply Z.leb_le in H1. apply Z.ltb_lt in H2.
  apply andb_true_iff. rewrite Z.leb_le, Z.ltb_lt.
  destruct (window_bounds year Hy) as [B1 B2].
  revert H1 H2 B1 B2.
  generalize (fromYMD 2013 1 1), (fromYMD year 6 1), (fromYMD year 9 30), (fromYMD 2024 1 1).
  intros. lia.
Qed.

Lemma window_observations year L :
  In year stepList -> window year (observations L) = window year L.
Proof.
  intros Hy. unfold window, observations. induction L as [|r L IH]; [reflexivity|].
  cbn [filter]. destruct (in_window year r) eqn:Ew.
  - rewrite (window_in_study_period year r Hy Ew). cbn [filter]. rewrite Ew. now f_equal.
  - destruct (in_study_period r); cbn [filter]; rewrite ?Ew; exact IH.
Qed.

Lemma window_nonempty year L r :
  In r L -> in_window year r = true -> window year L <> [].
Proof.
  intros Hr Hw E. assert (Hin : In r (window year L)) by (apply filter_In; auto).
  rewrite E in Hin. contradiction.
Qed.

Lemma window_empty year L :
  (forall r, In r L -> in_window year r = false) -> window year L = [].
Proof.
  intros H. apply filter_none. intros r Hr.
  apply not_true_iff_false. rewrite (H r Hr). discriminate.
Qed.



Lemma list_eq_dec_nil {A : Type} (l : list A) : {l = []} + {l <> []}.
Proof. destruct l; [now left|right; discriminate]. Qed.

Lemma yearly_median_eq k median fv obs year :
  yearly_median median fv obs year
  = reduce_values median
      (map (band_value "fitted")
           (filterDate (fromYMD year 6 1) (fromYMD year 9 30)
                       (map (fun r => fitted_image k r (fv r)) obs))).
Proof.
  unfold yearly_median. rewrite filterDate_fitted, map_map. f_equal.
  apply map_ext. intros r. now rewrite band_value_fitted.
Qed.

(** C10.  The yearly stack selects the bands [0_fitted] .. [10_fitted] and
    names them [2013] .. [2023].  When every year has an observation between
    June 1 and September 30, the selection succeeds and the band of a year
    is the median of the band [fitted] over the observations of that year's
    window (stored as 16-bit integers of 10000 times the value); when a year has
    none, the selection fails and nothing is exported. *)
Theorem yearly_export_positional
    (k : nat) (ols : list (list R) -> list R -> list R) (rd : list (list R) -> bool)
    (median : list R -> R) (ti : R -> Z) (L : list Raw) :
  (forall X y, List.length (ols X y) = 2 + 2 * k) ->
  ((forall year, In year stepList -> exists r, In r L /\ in_window year r = true) ->
   exists c fit stack out,
     harmonicLandsat k L = Ok c /\
     fittedHarmonic k ols rd c = Ok fit /\
     yearlyStack median fit = Ok stack /\
     bands stack =
       combine year_labels
         (map (fun year =>
                 reduce_values median
                   (map (band_value "fitted")
                        (filterDate (fromYMD year 6 1) (fromYMD year 9 30) fit)))
              stepList) /\
     yearly k ols rd median ti L = Ok out /\
     bands out = map (fun b => (fst b, stored ti (snd b))) (bands stack))
  /\
  ((exists year, In year stepList /\ forall r, In r L -> in_window year r = false) ->
   exists msg, yearly k ols rd median ti L = Err msg).
Proof.
  intros Hols. set (obs := observations L).
  pose (fv := fun r => fitted_value k r (solution_values k ols rd obs)).
  assert (Hcol := columns_of_ols k ols rd obs Hols).
  split.
  - intros H.
    assert (Hw : forall year, In year stepList -> window year obs <> []).
    { intros y Hy. destruct (H y Hy) as (r & Hr & Hw). unfold obs.
      rewrite window_observations by assumption. exact (window_nonempty y L r Hr Hw). }
    assert (Hobs : obs <> []).
    { intros E. apply (Hw 2013%Z); [cbn; tauto|]. now rewrite E. }
    pose proof (yearlyStack_complete k median fv obs Hw) as Hs. cbv beta delta [fv] in Hs.
    exists (map (prepared k) obs).
    exists (map (fun r => fitted_image k r
                            (fitted_value k r (solution_values k ols rd obs))) obs).
    exists (computed (combine year_labels (map (yearly_median median fv obs) stepList))).
    exists (computed (map (fun b => (fst b, stored ti (snd b)))
                          (combine year_labels (map (yearly_median median fv obs) stepList)))).
    split; [apply harmonicLandsat_eq|].
    split; [now apply fittedHarmonic_eq|].
    split; [exact Hs|].
    split.
    { cbn [computed bands]. f_equal. apply map_ext. intros y.
      apply (yearly_median_eq k median fv obs y). }
    split; [|reflexivity].
    unfold yearly. rewrite harmonicLandsat_eq. cbn [bind]. fold obs.
    rewrite (fittedHarmonic_eq k ols rd obs Hcol Hobs). cbn [bind].
    unfold outImage. rewrite Hs. cbn [bind]. apply scaled_and_cast.
  - intros (y & Hy & He). unfold yearly. rewrite harmonicLandsat_eq. cbn [bind]. fold obs.
    destruct (list_eq_dec_nil obs) as [E|Hobs].
    + rewrite E. eexists. reflexivity.
    + rewrite (fittedHarmonic_eq k ols rd obs Hcol Hobs). cbn [bind]. unfold outImage.
      destruct (yearlyStack_incomplete k median fv obs y Hy) as (msg & Hm).
      * unfold obs. rewrite window_observations by assumption. now apply window_empty.
      * cbv beta delta [fv] in Hm. rewrite Hm. eexists. reflexivity.
Qed.

Lemma zero_solution_columns k X y : List.length (zero_solution k X y) = 2 + 2 * k.
Proof. apply repeat_length. Qed.

Lemma yearly_export_positional_witness :
  (exists c fit stack out,
     harmonicLandsat 3 (july_series stepList) = Ok c /\
     fittedHarmonic 3 (zero_solution 3) never_deficient c = Ok fit /\
     yearlyStack first_value fit = Ok stack /\
     bands stack =
       combine year_labels
         (map (fun year =>
                 reduce_values first_value
                   (map (band_value "fitted")
                        (filterDate (fromYMD year 6 1) (fromYMD year 9 30) fit)))
              stepList) /\
     yearly 3 (zero_solution 3) never_deficient first_value round_nearest (july_series stepList)
     = Ok out /\
     bands out = map (fun b => (fst b, stored round_nearest (snd b))) (bands stack))
  /\
  (exists msg,
     yearly 3 (zero_solution 3) never_deficient first_value round_nearest
            (july_series [2013; 2014; 2016; 2017; 2018; 2019; 2020; 2021; 2022; 2023]%Z)
     = Err msg).
Proof.
  split.
  - apply (yearly_export_positional 3 (zero_solution 3) never_deficient first_value
             round_nearest (july_series stepList) (zero_solution_columns 3)).
    intros year Hy. exists (clear_scene (fromYMD year 7 15)). split.
    + unfold july_series. apply (in_map (fun y => clear_scene (fromYMD y 7 15))). exact Hy.
    + cbn in Hy. repeat (destruct Hy as [<-|Hy]; [vm_compute; reflexivity|]). contradiction.
  - apply (yearly_export_positional 3 (zero_solution 3) never_deficient first_value
             round_nearest
             (july_series [2013; 2014; 2016; 2017; 2018; 2019; 2020; 2021; 2022; 2023]%Z)
             (zero_solution_columns 3)).
    exists 2015%Z. split; [cbn; tauto|].
    intros r Hr. cbn in Hr.
    repeat (destruct Hr as [<-|Hr]; [vm_compute; reflexivity|]). contradiction.
Defined.

(** C2, on a series without any scene in 2015.  The composite of 2015 is
    dropped from [yearlyComposites] (ten composites remain, in the order of
    their years), but the renaming [select] of [outImage] then asks for eleven
    bands and the yearly export fails instead of holding ten bands. *)
Theorem empty_year_breaks_export :
  exists c fit msg,
    harmonicLandsat 3
      (july_series [2013; 2014; 2016; 2017; 2018; 2019; 2020; 2021; 2022; 2023]%Z) = Ok c /\
    fittedHarmonic 3 (zero_solution 3) never_deficient c = Ok fit /\
    map time_start (yearlyComposites first_value fit)
    = map (fun y => Some (fromYMD y 6 1))
          [2013; 2014; 2016; 2017; 2018; 2019; 2020; 2021; 2022; 2023]%Z /\
    outImage first_value round_nearest fit = Err msg.
Proof.
  set (L := july_series [2013; 2014; 2016; 2017; 2018; 2019; 2020; 2021; 2022; 2023]%Z).
  assert (Hobs : observations L = L) by (vm_compute; reflexivity).
  set (fv := fun r => fitted_value 3 r (solution_values 3 (zero_solution 3) never_deficient L)).
  destruct (yearlyStack_incomplete 3 first_value fv L 2015%Z) as (msg & Hm).
  { cbn; tauto. }
  { vm_compute. reflexivity. }
  exists (map (prepared 3) L), (map (fun r => fitted_image 3 r (fv r)) L), msg.
  split; [rewrite harmonicLandsat_eq, Hobs; reflexivity|].
  split.
  { apply (fittedHarmonic_eq 3 _ _ L (columns_of_ols 3 _ _ L (zero_solution_columns 3))).
    unfold L, july_series. cbn [map]. discriminate. }
  split.
  { rewrite yearlyComposites_years. apply f_equal. vm_compute. reflexivity. }
  unfold outImage. rewrite Hm. reflexivity.
Qed.

(** ** Pixels without solution *)

Lemma map_const_None {A : Type} (f : A -> value) l :
  (forall x, f x = None) -> map f l = repeat None (List.length l).
Proof. intros H. induction l as [|a l IH]; simpl; [reflexivity|]. now rewrite H, IH. Qed.

Lemma nth_repeat_None n j : nth j (repeat (@None R) n) None = None.
Proof. revert j. induction n as [|n IH]; intros [|j]; simpl; auto. Qed.

Lemma stack_values_no_data k m i :
  i < 2 + 4 * k -> nth i (stack_values k (repeat None (2 + 2 * k)) m) (Some 0%R) = None.
Proof.
  intros Hi. unfold stack_values.
  rewrite (map_const_None (amplitude_value k _))
    by (intros j; unfold amplitude_value; now rewrite !nth_repeat_None).
  rewrite (map_const_None (phase_value k _))
    by (intros j; unfold phase_value; now rewrite !nth_repeat_None).
  unfold harmonicFrequencies. rewrite length_seq.
  rewrite !app_assoc, <- !repeat_app.
  rewrite app_nth1 by (rewrite repeat_length; lia).
  rewrite (nth_indep _ (Some 0%R) None) by (rewrite repeat_length; lia).
  apply nth_repeat_None.
Qed.

Lemma stack_lengths k vs m :
  List.length vs = 2 + 2 * k ->
  List.length (stack_names k) = List.length (stack_values k vs m).
Proof.
  intros H. unfold stack_names, stack_values, ampNames, phaseNames, getNames.
  rewrite !length_app, !length_map, independents_length, H. reflexivity.
Qed.

Lemma observations_times L L' :
  map raw_time L = map raw_time L' ->
  List.length (observations L) = List.length (observations L').
Proof.
  unfold observations, in_study_period, in_range. cbn [catalog time_start].
  revert L'. induction L as [|r L IH]; intros [|r' L'] E; try discriminate; [reflexivity|].
  cbn [map] in E. injection E as Er E. cbn [filter]. rewrite Er.
  destruct (_ && _)%bool; cbn [List.length]; rewrite (IH L' E); reflexivity.
Qed.

Lemma stack_values_solution k vs m i :
  i < List.length vs -> nth i (stack_values k vs m) None = nth i vs None.
Proof. intros H. unfold stack_values. now rewrite app_nth1. Qed.

(** C7.  At a pixel where the regression receives fewer rows than columns,
    or a design matrix whose columns are linearly dependent (which the rank
    test of the platform detects), the coefficient vector is masked, and so
    are the coefficient, amplitude and phase bands (also in the exported
    raster) and the band [fitted] that every image receives; the script does
    not fail.  At every pixel of the raster the script succeeds all the same
    and the coefficient bands hold the solution computed from the rows of that
    pixel. *)
Theorem insufficient_data_is_local
    (k : nat) (ols : list (list R) -> list R -> list R) (rd : list (list R) -> bool)
    (ti : R -> Z) (scenes : list Scene) (q : Pixel) (c : list Image) (rows : list (list R)) :
  1 <= k <= 9 ->
  (forall X y, List.length (ols X y) = 2 + 2 * k) ->
  (forall X, column_dependent (2 + 2 * k) X -> rd X = true) ->
  (forall s p, In s scenes -> raw_time (s p) = raw_time (s q)) ->
  harmonicLandsat k (series_at scenes q) = Ok c ->
  c <> [] ->
  regression_inputs k c = Ok rows ->
  List.length rows < 2 + 2 * k \/
  column_dependent (2 + 2 * k) (map (firstn (2 + 2 * k)) rows) ->
  (exists h fit out,
     harmonicTrend k ols rd c = Ok None /\
     harmonicTrendCoefficients k ols rd c = Ok h /\
     bandNames h = independents k ++ ampNames k ++ phaseNames k ++ ["NDVI_mean"] /\
     (forall i, i < 2 + 4 * k -> nth i (bandValues h) (Some 0%R) = None) /\
     fittedHarmonic k ols rd c = Ok fit /\
     Forall2 (fun img f => bands f = bands img ++ [("fitted", None)]) c fit /\
     exported_raster k ols rd ti scenes q = Ok out /\
     bandNames out = independents k ++ ampNames k ++ phaseNames k ++ ["NDVI_mean"] /\
     (forall i, i < 2 + 4 * k -> nth i (bandValues out) (Some 0%R) = None))
  /\
  (forall p, exists c' rows' h' out',
     harmonicLandsat k (series_at scenes p) = Ok c' /\
     regression_inputs k c' = Ok rows' /\
     harmonicTrend k ols rd c' = Ok (linearRegression ols rd (2 + 2 * k) rows') /\
     harmonicTrendCoefficients k ols rd c' = Ok h' /\
     exported_raster k ols rd ti scenes p = Ok out' /\
     bandNames out' = independents k ++ ampNames k ++ phaseNames k ++ ["NDVI_mean"] /\
     forall cs, linearRegression ols rd (2 + 2 * k) rows' = Some cs ->
       forall i, i < 2 + 2 * k ->
         nth i (bandValues h') None = Some (nth i cs 0%R) /\
         nth i (bandValues out') None = stored ti (Some (nth i cs 0%R))).
Proof.
  intros Hk Hols Hrd Htimes Hc Hne Hrows Hbad.
  set (obs := observations (series_at scenes q)) in *.
  rewrite harmonicLandsat_eq in Hc. injection Hc as <-. fold obs in Hne, Hrows |- *.
  rewrite regression_inputs_eq in Hrows. injection Hrows as <-.
  assert (Hobs : obs <> []) by (intros E; apply Hne; now rewrite E).
  split.
  - assert (Hnone : linearRegression ols rd (2 + 2 * k) (regression_rows k obs) = None).
    { unfold linearRegression. destruct Hbad as [H|H].
      - apply Nat.ltb_lt in H. now rewrite H.
      - rewrite (Hrd _ H). now rewrite orb_true_r. }
    assert (Hcol : forall cs, linearRegression ols rd (2 + 2 * k) (regression_rows k obs)
                              = Some cs -> List.length cs = 2 + 2 * k)
      by (intros cs E; rewrite Hnone in E; discriminate).
    assert (Hvs : solution_values k ols rd obs = repeat None (2 + 2 * k))
      by (unfold solution_values; now rewrite Hnone).
    set (m := reduce_values mean (map ndvi_value obs)).
    assert (Hlen : List.length (stack_names k)
                   = List.length (stack_values k (repeat None (2 + 2 * k)) m))
      by (apply stack_lengths, repeat_length).
    exists (computed (combine (stack_names k) (stack_values k (repeat None (2 + 2 * k)) m))).
    exists (map (fun r => fitted_image k r None) obs).
    exists (computed (map (fun b => (fst b, stored ti (snd b)))
                          (combine (stack_names k)
                                   (stack_values k (repeat None (2 + 2 * k)) m)))).
    split; [rewrite harmonicTrend_eq by assumption; now rewrite Hnone|].
    split; [rewrite (harmonicTrendCoefficients_eq k ols rd obs Hcol Hobs Hk), Hvs; reflexivity|].
    split; [apply (named_bands_values _ _ Hlen)|].
    split.
    { intros i Hi. rewrite (proj2 (named_bands_values _ _ Hlen)).
      now apply stack_values_no_data. }
    split.
    { rewrite (fittedHarmonic_eq k ols rd obs Hcol Hobs), Hvs. f_equal. apply map_ext.
      intros r. f_equal. apply fitted_value_None. clear. induction (2 + 2 * k); simpl; auto. }
    split.
    { clear. induction obs as [|r obs IH]; cbn [map]; constructor; [reflexivity|exact IH]. }
    split.
    { unfold exported_raster, exported. rewrite harmonicLandsat_eq. cbn [bind]. fold obs.
      rewrite (output_eq k ols rd obs Hcol Hobs ti Hk), Hvs. reflexivity. }
    unfold bandNames, bandValues. cbn [computed bands]. rewrite !map_map. cbn [fst snd].
    split.
    + change (map (fun x : Band => fst x)) with (map (@fst string value)).
      now apply map_fst_combine.
    + intros i Hi. rewrite <- (map_map snd (stored ti)), map_snd_combine by assumption.
      rewrite (nth_indep _ (Some 0%R) (stored ti (Some 0%R)))
        by (rewrite length_map, <- Hlen; unfold stack_names, ampNames, phaseNames, getNames,
              harmonicFrequencies;
            rewrite !length_app, !length_map, !length_seq, independents_length; simpl; lia).
      rewrite map_nth, stack_values_no_data by assumption. reflexivity.
  - intros p. set (obs' := observations (series_at scenes p)).
    assert (Hobs' : obs' <> []).
    { assert (E : List.length obs' = List.length obs).
      { apply observations_times. unfold series_at. rewrite !map_map.
        apply map_ext_in. intros s Hs. now apply Htimes. }
      intros E'. rewrite E' in E. destruct obs; [contradiction|discriminate]. }
    assert (Hcol := columns_of_ols k ols rd obs' Hols).
    set (vs := solution_values k ols rd obs').
    set (m := reduce_values mean (map ndvi_value obs')).
    assert (Hvl : List.length vs = 2 + 2 * k) by now apply solution_values_length.
    assert (Hlen : List.length (stack_names k) = List.length (stack_values k vs m))
      by now apply stack_lengths.
    exists (map (prepared k) obs'), (regression_rows k obs').
    exists (computed (combine (stack_names k) (stack_values k vs m))).
    exists (computed (map (fun b => (fst b, stored ti (snd b)))
                          (combine (stack_names k) (stack_values k vs m)))).
    split; [apply harmonicLandsat_eq|]. split; [apply regression_inputs_eq|].
    split; [now apply harmonicTrend_eq|].
    split; [apply (harmonicTrendCoefficients_eq k ols rd obs' Hcol Hobs' Hk)|].
    split.
    { unfold exported_raster, exported. rewrite harmonicLandsat_eq. cbn [bind]. fold obs'.
      apply (output_eq k ols rd obs' Hcol Hobs' ti Hk). }
    unfold bandNames, bandValues. cbn [computed bands]. rewrite !map_map. cbn [fst snd].
    split.
    + change (map (fun x : Band => fst x)) with (map (@fst string value)).
      now apply map_fst_combine.
    + intros cs Hcs i Hi.
      assert (Evs : vs = map Some cs) by (unfold vs, solution_values; now rewrite Hcs).
      assert (Ecs : List.length cs = 2 + 2 * k) by (rewrite <- Hvl, Evs; now rewrite length_map).
      change (map (fun x : Band => snd x)) with (map (@snd string value)).
      rewrite <- (map_map snd (stored ti)), !map_snd_combine by assumption.
      change (@None R) with (stored ti None) at 2. rewrite map_nth.
      rewrite stack_values_solution by lia. rewrite Evs, nth_Some by lia. auto.
Qed.

Lemma four_scenes_observed p :
  observations (series_at four_scenes p) = repeat (clear_scene (fromYMD 2015 7 15)) 4.
Proof. vm_compute. reflexivity. Qed.

Lemma exactly_deficient_detects n X : column_dependent n X -> exactly_deficient n X = true.
Proof.
  intros H. unfold exactly_deficient.
  destruct (excluded_middle_informative (column_dependent n X)); [reflexivity|contradiction].
Qed.

Lemma same_time_is_dependent r n :
  column_dependent 4 (map (firstn 4) (regression_rows 1 (repeat r n))).
Proof.
  pose proof (regression_rows_design 1 (repeat r n)) as E. cbn [Nat.add Nat.mul] in E.
  rewrite E. clear E.
  exists [time_radians r; -1; 0; 0]%R. split; [reflexivity|]. split.
  - exists 1. cbn [nth]. lra.
  - intros row Hrow. apply in_map_iff in Hrow as (r' & <- & Hr').
    apply filter_In in Hr' as [Hr' _]. apply repeat_spec in Hr'. subst r'.
    unfold design_row, dot, harmonicFrequencies.
    cbn [seq map app combine Rsum fold_right fst snd]. ring.
Qed.

Lemma insufficient_data_is_local_witness :
  (exists h fit out,
     harmonicTrend 1 (zero_solution 1) (exactly_deficient 4)
       (map (prepared 1) (repeat (clear_scene (fromYMD 2015 7 15)) 4)) = Ok None /\
     harmonicTrendCoefficients 1 (zero_solution 1) (exactly_deficient 4)
       (map (prepared 1) (repeat (clear_scene (fromYMD 2015 7 15)) 4)) = Ok h /\
     bandNames h = independents 1 ++ ampNames 1 ++ phaseNames 1 ++ ["NDVI_mean"] /\
     (forall i, i < 2 + 4 * 1 -> nth i (bandValues h) (Some 0%R) = None) /\
     fittedHarmonic 1 (zero_solution 1) (exactly_deficient 4)
       (map (prepared 1) (repeat (clear_scene (fromYMD 2015 7 15)) 4)) = Ok fit /\
     Forall2 (fun img f => bands f = bands img ++ [("fitted", None)])
       (map (prepared 1) (repeat (clear_scene (fromYMD 2015 7 15)) 4)) fit /\
     exported_raster 1 (zero_solution 1) (exactly_deficient 4) round_nearest four_scenes
       (0, 0)%Z = Ok out /\
     bandNames out = independents 1 ++ ampNames 1 ++ phaseNames 1 ++ ["NDVI_mean"] /\
     (forall i, i < 2 + 4 * 1 -> nth i (bandValues out) (Some 0%R) = None))
  /\
  (forall p, exists c' rows' h' out',
     harmonicLandsat 1 (series_at four_scenes p) = Ok c' /\
     regression_inputs 1 c' = Ok rows' /\
     harmonicTrend 1 (zero_solution 1) (exactly_deficient 4) c'
     = Ok (linearRegression (zero_solution 1) (exactly_deficient 4) (2 + 2 * 1) rows') /\
     harmonicTrendCoefficients 1 (zero_solution 1) (exactly_deficient 4) c' = Ok h' /\
     exported_raster 1 (zero_solution 1) (exactly_deficient 4) round_nearest four_scenes p
     = Ok out' /\
     bandNames out' = independents 1 ++ ampNames 1 ++ phaseNames 1 ++ ["NDVI_mean"] /\
     forall cs,
       linearRegression (zero_solution 1) (exactly_deficient 4) (2 + 2 * 1) rows' = Some cs ->
       forall i, i < 2 + 2 * 1 ->
         nth i (bandValues h') None = Some (nth i cs 0%R) /\
         nth i (bandValues out') None = stored round_nearest (Some (nth i cs 0%R))).
Proof.
  apply (insufficient_data_is_local 1 (zero_solution 1) (exactly_deficient 4) round_nearest
           four_scenes (0, 0)%Z
           (map (prepared 1) (repeat (clear_scene (fromYMD 2015 7 15)) 4))
           (regression_rows 1 (repeat (clear_scene (fromYMD 2015 7 15)) 4))).
  - lia.
  - intros X y. reflexivity.
  - intros X. apply exactly_deficient_detects.
  - intros s p Hs. apply repeat_spec in Hs. subst s. reflexivity.
  - rewrite harmonicLandsat_eq, four_scenes_observed. reflexivity.
  - discriminate.
  - apply regression_inputs_eq.
  - right. apply same_time_is_dependent.
Defined.

(** ** Fixed-point storage *)

Lemma round_nearest_close x : (Rabs (IZR (round_nearest x) - x) <= / 2)%R.
Proof.
  unfold round_nearest. destruct (base_Int_part (x + / 2)) as [H1 H2].
  apply Rabs_le. lra.
Qed.

Lemma round_nearest_IZR z : round_nearest (IZR z) = z.
Proof.
  unfold round_nearest. symmetry. apply Int_part_spec. lra.
Qed.

Lemma clamp_int16_id z : (INT16_MIN <= z <= INT16_MAX)%Z -> clamp_int16 z = z.
Proof. unfold clamp_int16. lia. Qed.

Lemma clamp_int16_range z : (INT16_MIN <= clamp_int16 z <= INT16_MAX)%Z.
Proof. unfold clamp_int16, INT16_MIN, INT16_MAX. lia. Qed.

(** The round trip for any conversion to an integer that moves a number by
    less than 1 (rounding, truncation, floor). *)
Lemma decode_close (ti : R -> Z) (v : R) :
  (Rabs (IZR (ti (v * 10000)) - v * 10000) < 1)%R ->
  (INT16_MIN <= ti (v * 10000)%R <= INT16_MAX)%Z ->
  (Rabs (decode (clamp_int16 (ti (v * 10000))) - v) < 0.0001)%R.
Proof.
  intros Hc Hr. rewrite clamp_int16_id by assumption. unfold decode.
  apply Rabs_def2 in Hc as [H1 H2]. apply Rabs_def1; lra.
Qed.

(** C8.  A value stored as [round(v * 10000)] clamped to 16 bits decodes to
    within 0.0001 of [v] whenever the rounded number is in the 16-bit range
    (no clamping occurs); this is what the script's scaling and cast store. *)
Theorem quantization_round_trip (v : R) :
  (INT16_MIN <= round_nearest (v * 10000)%R <= INT16_MAX)%Z ->
  stored round_nearest (Some v) = Some (IZR (clamp_int16 (round_nearest (v * 10000)%R))) /\
  (Rabs (decode (clamp_int16 (round_nearest (v * 10000))) - v) <= 0.0001)%R.
Proof.
  intros Hr. split; [reflexivity|].
  rewrite clamp_int16_id by assumption. unfold decode.
  pose proof (round_nearest_close (v * 10000)) as Hc.
  revert Hc. unfold Rabs. repeat destruct Rcase_abs; lra.
Qed.

Lemma quantization_round_trip_witness :
  stored round_nearest (Some 0.5%R)
  = Some (IZR (clamp_int16 (round_nearest (0.5 * 10000)%R))) /\
  (Rabs (decode (clamp_int16 (round_nearest (0.5 * 10000))) - 0.5) <= 0.0001)%R.
Proof.
  apply (quantization_round_trip 0.5%R).
  replace (0.5 * 10000)%R with (IZR 5000) by lra.
  rewrite round_nearest_IZR. unfold INT16_MIN, INT16_MAX. lia.
Defined.

(** Clamping is lossy: 4 is stored as 32767 and decodes to 3.2767. *)
Lemma clamping_is_lossy :
  clamp_int16 (round_nearest (4 * 10000)%R) = 32767%Z /\
  (Rabs (decode (clamp_int16 (round_nearest (4 * 10000))) - 4) > 0.0001)%R.
Proof.
  replace (4 * 10000)%R with (IZR 40000) by lra. rewrite round_nearest_IZR.
  split; [reflexivity|].
  change (clamp_int16 40000) with 32767%Z. unfold decode.
  rewrite Rabs_left; lra.
Qed.

(** * Further properties of the script *)

(** ** Band names *)

Lemma in_getNames base l n :
  In n (getNames base l) -> exists i, In i l /\ n = (base ++ string_of_nat i)%string.
Proof.
  unfold getNames. intros H. apply in_map_iff in H as (i & <- & Hi). now exists i.
Qed.

Lemma getNames_NoDup base l : NoDup l -> NoDup (getNames base l).
Proof.
  induction 1 as [|i l Hi Hl IH]; cbn [getNames map]; constructor; [|exact IH].
  intros Hin. apply in_getNames in Hin as (j & Hj & E).
  apply append_inj_l, string_of_nat_inj in E. now subst.
Qed.

(** X1.  Whatever the number of harmonics, the names of the regression
    terms are pairwise distinct: a selector or a label of [independents]
    designates one band only. *)
Theorem independents_distinct (k : nat) : NoDup (independents k).
Proof.
  unfold independents, cosNames, sinNames, harmonicFrequencies.
  assert (Hc : forall n, In n (getNames "cos_" (seq 1 k)) ->
                         exists s, n = ("cos_" ++ s)%string).
  { intros n Hn. apply in_getNames in Hn as (i & _ & ->). now eexists. }
  assert (Hs : forall n, In n (getNames "sin_" (seq 1 k)) ->
                         exists s, n = ("sin_" ++ s)%string).
  { intros n Hn. apply in_getNames in Hn as (i & _ & ->). now eexists. }
  cbn [app]. constructor; [|constructor].
  - intros [E|Hin]; [discriminate|].
    apply in_app_or in Hin as [Hin|Hin];
      [apply Hc in Hin|apply Hs in Hin]; destruct Hin as (s & E); discriminate.
  - intros Hin. apply in_app_or in Hin as [Hin|Hin];
      [apply Hc in Hin|apply Hs in Hin]; destruct Hin as (s & E); discriminate.
  - apply NoDup_app.
    + apply getNames_NoDup, seq_NoDup.
    + apply getNames_NoDup, seq_NoDup.
    + intros n H1 H2. apply Hc in H1 as (s & ->). apply Hs in H2 as (s' & E). discriminate.
Qed.

(** ** Cloud and saturation mask *)

Lemma Int_part_IZR z : Int_part (IZR z) = z.
Proof. symmetry. apply Int_part_spec. lra. Qed.

Lemma keep_clear r v :
  Z.land (QA_PIXEL r) QA_BITS = 0%Z -> QA_RADSAT r = 0%Z -> keep r v = v.
Proof.
  intros Hq Hs. unfold keep, unsaturated, qa_clear, mask_value, eq_R, bitwiseAnd_R.
  rewrite Int_part_IZR, Hq, Hs.
  destruct (Req_dec_T 0 0) as [_|N]; [|contradiction].
  destruct (Req_dec_T 1 0) as [E|_]; [lra|reflexivity].
Qed.

Lemma keep_masked r v :
  Z.land (QA_PIXEL r) QA_BITS <> 0%Z \/ QA_RADSAT r <> 0%Z -> keep r v = None.
Proof.
  intros H. unfold keep, unsaturated, qa_clear, mask_value, eq_R, bitwiseAnd_R.
  rewrite Int_part_IZR.
  destruct (Req_dec_T (IZR (QA_RADSAT r)) 0) as [Es|Ns].
  - destruct (Req_dec_T 1 0) as [E|_]; [lra|].
    destruct (Req_dec_T (IZR (Z.land (QA_PIXEL r) QA_BITS)) 0) as [Eq|Nq].
    + apply eq_IZR in Es, Eq. tauto.
    + destruct (Req_dec_T 0 0) as [_|N]; [reflexivity|contradiction].
  - destruct (Req_dec_T 0 0) as [_|N]; [reflexivity|contradiction].
Qed.

(** X2.  A catalog pixel with one of the bits 0 to 4 of [QA_PIXEL] set
    (fill, dilated cloud, cirrus, cloud, cloud shadow) or a non-zero
    [QA_RADSAT] is masked by [maskL8sr] in every band; names, order and time
    stamp of the image are kept. *)
Theorem maskL8sr_masks_flagged (r : Raw) :
  Z.land (QA_PIXEL r) 31 <> 0%Z \/ QA_RADSAT r <> 0%Z ->
  exists img,
    maskL8sr (catalog r) = Ok img /\
    bandNames img = bandNames (catalog r) /\
    Forall (fun v => v = None) (bandValues img) /\
    time_start img = Some (raw_time r).
Proof.
  intros H. eexists. split; [apply maskL8sr_catalog|].
  split; [reflexivity|]. split; [|reflexivity].
  unfold bandValues, masked_bands. cbn [bands map snd].
  repeat (constructor; [now apply keep_masked|]). constructor.
Qed.

Lemma maskL8sr_masks_flagged_witness :
  exists img,
    maskL8sr (catalog (mkRaw 0 "LC08" 0 0 0 9000 20000 0 0 0 0 0 0 0 0 0 0 0 0 21832 0))
    = Ok img /\
    bandNames img
    = bandNames (catalog (mkRaw 0 "LC08" 0 0 0 9000 20000 0 0 0 0 0 0 0 0 0 0 0 0 21832 0)) /\
    Forall (fun v => v = None) (bandValues img) /\
    time_start img
    = Some (raw_time (mkRaw 0 "LC08" 0 0 0 9000 20000 0 0 0 0 0 0 0 0 0 0 0 0 21832 0)).
Proof.
  apply (maskL8sr_masks_flagged
           (mkRaw 0 "LC08" 0 0 0 9000 20000 0 0 0 0 0 0 0 0 0 0 0 0 21832 0)).
  left. vm_compute. discriminate.
Defined.

(** X3.  On a clear, unsaturated pixel [maskL8sr] replaces in place the
    bands [SR_B1] .. [SR_B7] by [DN * 0.0000275 - 0.2] and [ST_B10] by
    [DN * 0.00341802 + 149], and leaves every other band as it is. *)
Theorem maskL8sr_scales_clear (r : Raw) :
  Z.land (QA_PIXEL r) 31 = 0%Z -> QA_RADSAT r = 0%Z ->
  exists img,
    maskL8sr (catalog r) = Ok img /\
    bands img =
      [("SR_B1", Some (IZR (SR_B1 r) * 0.0000275 + -0.2)%R);
       ("SR_B2", Some (IZR (SR_B2 r) * 0.0000275 + -0.2)%R);
       ("SR_B3", Some (IZR (SR_B3 r) * 0.0000275 + -0.2)%R);
       ("SR_B4", Some (IZR (SR_B4 r) * 0.0000275 + -0.2)%R);
       ("SR_B5", Some (IZR (SR_B5 r) * 0.0000275 + -0.2)%R);
       ("SR_B6", Some (IZR (SR_B6 r) * 0.0000275 + -0.2)%R);
       ("SR_B7", Some (IZR (SR_B7 r) * 0.0000275 + -0.2)%R);
       ("SR_QA_AEROSOL", Some (IZR (SR_QA_AEROSOL r)));
       ("ST_B10", Some (IZR (ST_B10 r) * 0.00341802 + 149.0)%R);
       ("ST_ATRAN", Some (IZR (ST_ATRAN r)));
       ("ST_CDIST", Some (IZR (ST_CDIST r)));
       ("ST_DRAD", Some (IZR (ST_DRAD r)));
       ("ST_EMIS", Some (IZR (ST_EMIS r)));
       ("ST_EMSD", Some (IZR (ST_EMSD r)));
       ("ST_QA", Some (IZR (ST_QA r)));
       ("ST_TRAD", Some (IZR (ST_TRAD r)));
       ("ST_URAD", Some (IZR (ST_URAD r)));
       ("QA_PIXEL", Some (IZR (QA_PIXEL r)));
       ("QA_RADSAT", Some (IZR (QA_RADSAT r)))].
Proof.
  intros Hq Hs. eexists. split; [apply maskL8sr_catalog|].
  cbn [bands]. unfold masked_bands. rewrite !keep_clear by assumption. reflexivity.
Qed.

Lemma maskL8sr_scales_clear_witness :
  exists img,
    maskL8sr (catalog (clear_scene 0)) = Ok img /\
    bands img =
      [("SR_B1", Some (IZR (SR_B1 (clear_scene 0)) * 0.0000275 + -0.2)%R);
       ("SR_B2", Some (IZR (SR_B2 (clear_scene 0)) * 0.0000275 + -0.2)%R);
       ("SR_B3", Some (IZR (SR_B3 (clear_scene 0)) * 0.0000275 + -0.2)%R);
       ("SR_B4", Some (IZR (SR_B4 (clear_scene 0)) * 0.0000275 + -0.2)%R);
       ("SR_B5", Some (IZR (SR_B5 (clear_scene 0)) * 0.0000275 + -0.2)%R);
       ("SR_B6", Some (IZR (SR_B6 (clear_scene 0)) * 0.0000275 + -0.2)%R);
       ("SR_B7", Some (IZR (SR_B7 (clear_scene 0)) * 0.0000275 + -0.2)%R);
       ("SR_QA_AEROSOL", Some (IZR (SR_QA_AEROSOL (clear_scene 0))));
       ("ST_B10", Some (IZR (ST_B10 (clear_scene 0)) * 0.00341802 + 149.0)%R);
       ("ST_ATRAN", Some (IZR (ST_ATRAN (clear_scene 0))));
       ("ST_CDIST", Some (IZR (ST_CDIST (clear_scene 0))));
       ("ST_DRAD", Some (IZR (ST_DRAD (clear_scene 0))));
       ("ST_EMIS", Some (IZR (ST_EMIS (clear_scene 0))));
       ("ST_EMSD", Some (IZR (ST_EMSD (clear_scene 0))));
       ("ST_QA", Some (IZR (ST_QA (clear_scene 0))));
       ("ST_TRAD", Some (IZR (ST_TRAD (clear_scene 0))));
       ("ST_URAD", Some (IZR (ST_URAD (clear_scene 0))));
       ("QA_PIXEL", Some (IZR (QA_PIXEL (clear_scene 0))));
       ("QA_RADSAT", Some (IZR (QA_RADSAT (clear_scene 0))))].
Proof.
  apply (maskL8sr_scales_clear (clear_scene 0)); vm_compute; reflexivity.
Defined.

(** ** The NDVI band *)

Lemma normalized_difference_bounds a b :
  (0 <= a -> 0 <= b -> -1 <= (a - b) / (a + b) <= 1)%R.
Proof.
  intros Ha Hb. destruct (Req_dec (a + b) 0) as [E|N].
  - assert (a = 0%R) by lra. assert (b = 0%R) by lra. subst.
    unfold Rdiv. rewrite Rminus_diag, Rmult_0_l. lra.
  - assert (Hp : (0 < a + b)%R) by lra.
    split.
    + apply (Rmult_le_reg_r (a + b)); [assumption|].
      unfold Rdiv. rewrite Rmult_assoc, Rinv_l by assumption. lra.
    + apply (Rmult_le_reg_r (a + b)); [assumption|].
      unfold Rdiv. rewrite Rmult_assoc, Rinv_l by assumption. lra.
Qed.

Lemma keep_cases r v :
  (Z.land (QA_PIXEL r) QA_BITS = 0%Z /\ QA_RADSAT r = 0%Z /\ keep r v = v) \/
  ((Z.land (QA_PIXEL r) QA_BITS <> 0%Z \/ QA_RADSAT r <> 0%Z) /\ keep r v = None).
Proof.
  destruct (Z.eq_dec (Z.land (QA_PIXEL r) QA_BITS) 0) as [Hq|Hq];
    destruct (Z.eq_dec (QA_RADSAT r) 0) as [Hs|Hs];
    try (right; split; [tauto|apply keep_masked; tauto]).
  left. split; [assumption|]. split; [assumption|]. now apply keep_clear.
Qed.

Lemma addNDVI_catalog r :
  (i1 <- maskL8sr (catalog r) ;; addNDVI i1)
  = Ok (mkImage (masked_bands r ++ [("NDVI", ndvi_value r)])
                (Some (raw_time r)) (raw_id r) None).
Proof. reflexivity. Qed.

Lemma ndvi_value_Some r y :
  ndvi_value r = Some y ->
  Z.land (QA_PIXEL r) QA_BITS = 0%Z /\ QA_RADSAT r = 0%Z /\
  (0 <= IZR (SR_B4 r) * 0.0000275 + -0.2)%R /\
  (0 <= IZR (SR_B5 r) * 0.0000275 + -0.2)%R /\
  y = (((IZR (SR_B5 r) * 0.0000275 + -0.2) - (IZR (SR_B4 r) * 0.0000275 + -0.2))
       / ((IZR (SR_B5 r) * 0.0000275 + -0.2) + (IZR (SR_B4 r) * 0.0000275 + -0.2)))%R.
Proof.
  unfold ndvi_value. intros H.
  destruct (keep_cases r (reflectance (SR_B5 r))) as [(Hq & Hs & E5)|[Hm E5]];
    rewrite E5 in H; [|discriminate].
  rewrite (keep_clear r _ Hq Hs) in H. unfold nd_value, reflectance in H.
  destruct (Rlt_dec _ 0) as [|N5] in H; [discriminate|].
  destruct (Rlt_dec _ 0) as [|N4] in H; [discriminate|].
  injection H as <-. repeat split; try assumption; lra.
Qed.

(** X4.  [addNDVI] appends one band [NDVI] to the masked image.  Where it is
    not masked, the pixel is clear and unsaturated, the reflectances of
    [SR_B4] and [SR_B5] are not negative, the value is their normalized
    difference [(B5 - B4) / (B5 + B4)], and it lies between -1 and 1. *)
Theorem addNDVI_value (r : Raw) :
  exists i1 i2 v,
    maskL8sr (catalog r) = Ok i1 /\
    addNDVI i1 = Ok i2 /\
    bands i2 = bands i1 ++ [("NDVI", v)] /\
    time_start i2 = Some (raw_time r) /\
    forall y, v = Some y ->
      Z.land (QA_PIXEL r) 31 = 0%Z /\ QA_RADSAT r = 0%Z /\
      (0 <= IZR (SR_B4 r) * 0.0000275 - 0.2)%R /\
      (0 <= IZR (SR_B5 r) * 0.0000275 - 0.2)%R /\
      y = (((IZR (SR_B5 r) * 0.0000275 - 0.2) - (IZR (SR_B4 r) * 0.0000275 - 0.2))
           / ((IZR (SR_B5 r) * 0.0000275 - 0.2) + (IZR (SR_B4 r) * 0.0000275 - 0.2)))%R /\
      (-1 <= y <= 1)%R.
Proof.
  exists (mkImage (masked_bands r) (Some (raw_time r)) (raw_id r) None).
  exists (mkImage (masked_bands r ++ [("NDVI", ndvi_value r)])
                  (Some (raw_time r)) (raw_id r) None).
  exists (ndvi_value r).
  split; [apply maskL8sr_catalog|]. split; [reflexivity|]. split; [reflexivity|].
  split; [reflexivity|].
  intros y Hy. destruct (ndvi_value_Some r y Hy) as (Hq & Hs & H4 & H5 & E).
  split; [exact Hq|]. split; [exact Hs|].
  replace (IZR (SR_B4 r) * 0.0000275 - 0.2)%R with (IZR (SR_B4 r) * 0.0000275 + -0.2)%R by lra.
  replace (IZR (SR_B5 r) * 0.0000275 - 0.2)%R with (IZR (SR_B5 r) * 0.0000275 + -0.2)%R by lra.
  split; [exact H4|]. split; [exact H5|]. split; [exact E|].
  rewrite E. now apply normalized_difference_bounds.
Qed.

Lemma ndvi_value_defined_iff (r : Raw) :
  (exists y, ndvi_value r = Some y) <->
  (Z.land (QA_PIXEL r) 31 = 0 /\ QA_RADSAT r = 0 /\ 7273 <= SR_B4 r /\ 7273 <= SR_B5 r)%Z.
Proof.
  assert (Hdn : forall z, (0 <= IZR z * 0.0000275 + -0.2)%R <-> (7273 <= z)%Z).
  { intros z. split.
    - intros H. destruct (Z_lt_le_dec z 7273) as [Hlt|]; [|assumption].
      assert (z <= 7272)%Z by lia. apply IZR_le in H0. lra.
    - intros H. apply IZR_le in H. lra. }
  split.
  - intros (y & Hy). destruct (ndvi_value_Some r y Hy) as (Hq & Hs & H4 & H5 & _).
    rewrite Hdn in H4, H5. tauto.
  - intros (Hq & Hs & H4 & H5). rewrite <- Hdn in H4, H5.
    unfold ndvi_value. rewrite !keep_clear by assumption. unfold nd_value, reflectance.
    destruct (Rlt_dec _ 0) as [N|_]; [lra|].
    destruct (Rlt_dec _ 0) as [N|_]; [lra|]. eexists. reflexivity.
Qed.

(** X5.  The NDVI is defined exactly on the clear, unsaturated pixels whose
    [SR_B4] and [SR_B5] numbers are at least 7273 (the smallest number with a
    non-negative reflectance): a darker pixel is masked although it is clear. *)
Theorem NDVI_defined_iff (r : Raw) :
  exists i1 i2 v,
    maskL8sr (catalog r) = Ok i1 /\
    addNDVI i1 = Ok i2 /\
    bands i2 = bands i1 ++ [("NDVI", v)] /\
    ((exists y, v = Some y) <->
     (Z.land (QA_PIXEL r) 31 = 0 /\ QA_RADSAT r = 0 /\ 7273 <= SR_B4 r /\ 7273 <= SR_B5 r)%Z).
Proof.
  exists (mkImage (masked_bands r) (Some (raw_time r)) (raw_id r) None).
  exists (mkImage (masked_bands r ++ [("NDVI", ndvi_value r)])
                  (Some (raw_time r)) (raw_id r) None).
  exists (ndvi_value r).
  split; [apply maskL8sr_catalog|]. split; [reflexivity|]. split; [reflexivity|].
  apply ndvi_value_defined_iff.
Qed.

(** The four clear scenes of [four_scenes] give four rows: as many as the
    columns of the model with one harmonic. *)
Lemma four_scenes_rows :
  List.length (regression_rows 1 (repeat (clear_scene (fromYMD 2015 7 15)) 4)) = 4.
Proof.
  destruct (proj2 (ndvi_value_defined_iff (clear_scene (fromYMD 2015 7 15)))) as (y & Hy).
  { vm_compute. repeat split; discriminate. }
  unfold regression_rows. cbn [repeat flat_map]. rewrite Hy. reflexivity.
Qed.

(** ** Regressors and regression inputs *)

Lemma study_period_bounds :
  fromYMD 2013 1 1 = 1356998400000%Z /\ fromYMD 2024 1 1 = 1704067200000%Z.
Proof. split; vm_compute; reflexivity. Qed.

Lemma prepared_length k r : List.length (bands (prepared k r)) = 22 + 2 * k.
Proof.
  rewrite <- (length_map fst), prepared_bandNames. unfold prepared_names, getNames,
    harmonicFrequencies. rewrite !length_app, !length_map, !length_seq. simpl. lia.
Qed.

(** X7.  [harmonicLandsat] never fails: it keeps, in their order and with
    their time stamps, exactly the catalog images acquired from 2013-01-01
    (included) to 2024-01-01 (excluded), each with its 19 catalog bands and
    the 3 + 2k bands [NDVI], [constant], [t], [cos_i], [sin_i]. *)
Theorem harmonicLandsat_keeps_study_period (k : nat) (L : list Raw) :
  exists c,
    harmonicLandsat k L = Ok c /\
    map time_start c
    = map Some (filter (fun t => (1356998400000 <=? t) && (t <? 1704067200000))%Z
                       (map raw_time L)) /\
    Forall (fun img => List.length (bands img) = 19 + (3 + 2 * k)) c.
Proof.
  exists (map (prepared k) (observations L)). split; [apply harmonicLandsat_eq|]. split.
  - unfold observations, in_study_period, in_range. cbn [catalog time_start].
    destruct study_period_bounds as [-> ->].
    induction L as [|r L IH]; [reflexivity|]. cbn [filter map].
    destruct ((1356998400000 <=? raw_time r)%Z && (raw_time r <? 1704067200000)%Z)%bool;
      cbn [map]; now rewrite IH.
  - apply Forall_forall. intros img Hi. apply in_map_iff in Hi as (r & <- & _).
    rewrite prepared_length. lia.
Qed.

Lemma band_value_NDVI k r : band_value "NDVI" (prepared k r) = ndvi_value r.
Proof.
  unfold band_value.
  rewrite (filter_ext (fun b : Band => String.eqb "NDVI" (fst b))
                      (fun b : Band => re_match "NDVI" (fst b)))
    by (intros b; symmetry; now apply re_match_literal).
  rewrite filter_prepared, !filter_term_none by (intros; reflexivity). reflexivity.
Qed.

Lemma band_value_literal n (img : Image) :
  literal n = true ->
  band_value n img
  = match filter (fun b : Band => re_match n (fst b)) (bands img) with
    | b :: _ => snd b
    | [] => None
    end.
Proof.
  intros H. unfold band_value.
  rewrite (filter_ext (fun b : Band => String.eqb n (fst b))
                      (fun b : Band => re_match n (fst b)))
    by (intros b; symmetry; now apply re_match_literal).
  reflexivity.
Qed.

Lemma band_value_cos k r i :
  In i (harmonicFrequencies k) ->
  band_value ("cos_" ++ string_of_nat i) (prepared k r)
  = Some (cos (time_radians r * INR i)).
Proof.
  intros Hi. rewrite band_value_literal
    by (rewrite literal_append, literal_string_of_nat; reflexivity).
  rewrite filter_prepared, (filter_term_one "cos_") by (reflexivity || assumption).
  rewrite (filter_term_none _ "sin_") by (intros; reflexivity).
  generalize (string_of_nat i). intros s. reflexivity.
Qed.

Lemma band_value_sin k r i :
  In i (harmonicFrequencies k) ->
  band_value ("sin_" ++ string_of_nat i) (prepared k r)
  = Some (sin (time_radians r * INR i)).
Proof.
  intros Hi. rewrite band_value_literal
    by (rewrite literal_append, literal_string_of_nat; reflexivity).
  rewrite filter_prepared, (filter_term_one "sin_") by (reflexivity || assumption).
  rewrite (filter_term_none _ "cos_") by (intros; reflexivity).
  generalize (string_of_nat i). intros s. reflexivity.
Qed.

Lemma band_value_constant_t k r :
  band_value "constant" (prepared k r) = Some 1%R /\
  band_value "t" (prepared k r) = Some (time_radians r).
Proof.
  split; rewrite band_value_literal by reflexivity;
    rewrite filter_prepared, !filter_term_none by (intros; reflexivity); reflexivity.
Qed.

Lemma band_values_regression k r :
  map (fun n => band_value n (prepared k r)) (independents k ++ ["NDVI"])
  = map Some (design_row k r) ++ [ndvi_value r].
Proof.
  unfold independents, design_row, cosNames, sinNames, getNames.
  destruct (band_value_constant_t k r) as [Hc Ht].
  rewrite !map_app, !map_map. cbn [map app]. rewrite Hc, Ht, band_value_NDVI.
  do 2 f_equal. rewrite <- !app_assoc. f_equal; [|f_equal].
  - apply map_ext_in. intros i Hi. now apply band_value_cos.
  - apply map_ext_in. intros i Hi. now apply band_value_sin.
Qed.

(** X8.  The rows of the regression are, in the order of the collection, the
    values of the bands [constant], [t], [cos_i], [sin_i] and [NDVI] of
    every image in which none of them is masked: one row of [2 + 2k + 1]
    numbers per image whose NDVI is not masked at the pixel.  Cloudy,
    saturated or dark observations do not enter the fit. *)
Theorem regression_uses_unmasked_NDVI (k : nat) (L : list Raw) :
  exists c rows,
    harmonicLandsat k L = Ok c /\
    regression_inputs k c = Ok rows /\
    rows = flat_map (fun img =>
                       match all_unmasked (map (fun n => band_value n img)
                                               (independents k ++ ["NDVI"])) with
                       | Some row => [row]
                       | None => []
                       end) c /\
    List.length rows
    = List.length (filter (fun img => match band_value "NDVI" img with
                                      | Some _ => true
                                      | None => false
                                      end) c) /\
    List.length rows <= List.length c /\
    Forall (fun row => List.length row = 2 + 2 * k + 1) rows.
Proof.
  exists (map (prepared k) (observations L)), (regression_rows k (observations L)).
  split; [apply harmonicLandsat_eq|]. split; [apply regression_inputs_eq|].
  split.
  { unfold regression_rows. generalize (observations L) as obs.
    induction obs as [|r obs IH]; [reflexivity|]. cbn [map flat_map].
    rewrite band_values_regression, all_unmasked_row, IH.
    destruct (ndvi_value r); reflexivity. }
  assert (E : List.length (regression_rows k (observations L))
              = List.length (filter (fun img => match band_value "NDVI" img with
                                                | Some _ => true
                                                | None => false
                                                end)
                                    (map (prepared k) (observations L)))).
  { rewrite regression_rows_length, filter_map_comm, length_map.
    unfold valid_observations, ndvi_is_valid. apply f_equal. apply filter_ext.
    intros r. now rewrite band_value_NDVI. }
  split; [exact E|]. split.
  - rewrite E. apply filter_length_le.
  - unfold regression_rows. apply Forall_forall. intros row Hr.
    apply in_flat_map in Hr as (r & _ & Hr).
    destruct (ndvi_value r) as [y|]; [|contradiction]. destruct Hr as [<-|[]].
    rewrite length_app, design_row_length. reflexivity.
Qed.

(** X9.  When the solver returns one coefficient per column and the
    collection is not empty, [fittedHarmonic] keeps every image, cloudy or
    not, in its place with its time stamp, and appends the band [fitted] as
    the last band. *)
Theorem fittedHarmonic_keeps_images
    (k : nat) (ols : list (list R) -> list R -> list R) (rd : list (list R) -> bool)
    (L : list Raw) :
  (forall X y, List.length (ols X y) = 2 + 2 * k) ->
  observations L <> [] ->
  exists c fit,
    harmonicLandsat k L = Ok c /\
    fittedHarmonic k ols rd c = Ok fit /\
    map time_start fit = map time_start c /\
    map bandNames fit = map (fun img => bandNames img ++ ["fitted"]) c.
Proof.
  intros Hols Hobs. do 2 eexists.
  split; [apply harmonicLandsat_eq|].
  split; [apply (fittedHarmonic_eq k ols rd _ (columns_of_ols k ols rd _ Hols) Hobs)|].
  rewrite !map_map. split; apply map_ext; intros r; reflexivity || idtac.
  unfold bandNames, fitted_image. cbn [with_bands bands]. now rewrite map_app.
Qed.

Lemma fittedHarmonic_keeps_images_witness :
  exists c fit,
    harmonicLandsat 3 (july_series stepList) = Ok c /\
    fittedHarmonic 3 (zero_solution 3) never_deficient c = Ok fit /\
    map time_start fit = map time_start c /\
    map bandNames fit = map (fun img => bandNames img ++ ["fitted"]) c.
Proof.
  apply (fittedHarmonic_keeps_images 3 (zero_solution 3) never_deficient (july_series stepList)).
  - intros X y. reflexivity.
  - assert (E : observations (july_series stepList) = july_series stepList)
      by (vm_compute; reflexivity).
    rewrite E. discriminate.
Defined.

(** ** The coefficient raster *)

(** X10.  For 1 to 9 harmonics, a solver that returns one coefficient per
    column and a collection that is not empty, the exported raster has the
    [3 + 4k] bands of the regression terms, the amplitudes, the phases and
    [NDVI_mean], in this order, each holding the band of the coefficient image
    multiplied by 10000 and cast to 16 bits. *)
Theorem exported_layout
    (k : nat) (ols : list (list R) -> list R -> list R) (rd : list (list R) -> bool)
    (ti : R -> Z) (L : list Raw) :
  1 <= k <= 9 ->
  (forall X y, List.length (ols X y) = 2 + 2 * k) ->
  observations L <> [] ->
  exists c h out,
    harmonicLandsat k L = Ok c /\
    harmonicTrendCoefficients k ols rd c = Ok h /\
    exported k ols rd ti L = Ok out /\
    bandNames out = independents k ++ ampNames k ++ phaseNames k ++ ["NDVI_mean"] /\
    List.length (bands out) = 3 + 4 * k /\
    bands out = map (fun b => (fst b, stored ti (snd b))) (bands h).
Proof.
  intros Hk Hols Hobs. set (obs := observations L) in *.
  assert (Hcol := columns_of_ols k ols rd obs Hols).
  set (vs := solution_values k ols rd obs).
  set (m := reduce_values mean (map ndvi_value obs)).
  assert (Hlen : List.length (stack_names k) = List.length (stack_values k vs m))
    by (apply stack_lengths, solution_values_length; assumption).
  exists (map (prepared k) obs).
  exists (computed (combine (stack_names k) (stack_values k vs m))).
  exists (computed (map (fun b => (fst b, stored ti (snd b)))
                        (combine (stack_names k) (stack_values k vs m)))).
  split; [apply harmonicLandsat_eq|].
  split; [apply (harmonicTrendCoefficients_eq k ols rd obs Hcol Hobs Hk)|].
  split.
  { unfold exported. rewrite harmonicLandsat_eq. cbn [bind]. fold obs.
    apply (output_eq k ols rd obs Hcol Hobs ti Hk). }
  split.
  { unfold bandNames. cbn [computed bands]. rewrite map_map. cbn [fst].
    change (map (fun x : Band => fst x)) with (map (@fst string value)).
    now apply map_fst_combine. }
  split; [|reflexivity].
  cbn [computed bands]. rewrite length_map, length_combine, <- Hlen, Nat.min_id.
  unfold stack_names, ampNames, phaseNames, getNames, harmonicFrequencies.
  rewrite !length_app, !length_map, !length_seq, independents_length. simpl. lia.
Qed.

Lemma exported_layout_witness :
  exists c h out,
    harmonicLandsat 3 (july_series stepList) = Ok c /\
    harmonicTrendCoefficients 3 (zero_solution 3) never_deficient c = Ok h /\
    exported 3 (zero_solution 3) never_deficient round_nearest (july_series stepList) = Ok out /\
    bandNames out = independents 3 ++ ampNames 3 ++ phaseNames 3 ++ ["NDVI_mean"] /\
    List.length (bands out) = 3 + 4 * 3 /\
    bands out = map (fun b => (fst b, stored round_nearest (snd b))) (bands h).
Proof.
  apply (exported_layout 3 (zero_solution 3) never_deficient round_nearest
           (july_series stepList)).
  - lia.
  - intros X y. reflexivity.
  - assert (E : observations (july_series stepList) = july_series stepList)
      by (vm_compute; reflexivity).
    rewrite E. discriminate.
Defined.

(** *** Ten harmonics or more *)

Lemma string_of_uint_empty d : NilEmpty.string_of_uint d = "" -> d = Decimal.Nil.
Proof. destruct d; simpl; intros H; [reflexivity|discriminate..]. Qed.

Lemma one_digit i : (exists c, string_of_nat i = String c "") -> i <= 9.
Proof.
  unfold string_of_nat. intros (c & H).
  rewrite <- (DecimalNat.Unsigned.of_to i).
  destruct (Nat.to_uint i) as [|d|d|d|d|d|d|d|d|d|d]; simpl in H; try discriminate;
    injection H as _ H; apply string_of_uint_empty in H; subst d; vm_compute; lia.
Qed.

(** The selector [base.] does not reach the name of index 10 or more. *)
Lemma any_char_selector (base : string) (i : nat) :
  literal base = true -> 10 <= i ->
  re_match (base ++ ".") (base ++ string_of_nat i) = false.
Proof.
  intros Hl Hi. induction base as [|c base IH].
  - cbn [String.append]. destruct (string_of_nat i) as [|d s] eqn:E; [reflexivity|].
    cbn. destruct s; [|reflexivity].
    exfalso. assert (i <= 9) by (apply one_digit; eauto). lia.
  - cbn [literal] in Hl. apply andb_true_iff in Hl as [Hc Hl]. apply negb_true_iff in Hc.
    cbn [String.append re_match]. rewrite Hc. cbn [andb orb]. rewrite Ascii.eqb_refl.
    cbn [andb]. now apply IH.
Qed.

Lemma filter_combine_length (f : string -> bool) (names : list string) (vs : list value) :
  List.length names = List.length vs ->
  List.length (filter (fun b : Band => f (fst b)) (combine names vs))
  = List.length (filter f names).
Proof.
  revert vs. induction names as [|n names IH]; intros [|v vs] H; try discriminate;
    [reflexivity|].
  cbn [combine filter fst]. destruct (f n); cbn [List.length]; rewrite IH; auto.
Qed.

Lemma filter_getNames_other p base l :
  (forall s, re_match p (base ++ s) = false) ->
  filter (re_match p) (getNames base l) = [].
Proof.
  intros H. apply filter_none. intros n Hn. apply in_getNames in Hn as (i & _ & ->). apply H.
Qed.

Lemma filter_length_below (f : nat -> bool) k :
  (forall i, 10 <= i -> f i = false) -> List.length (filter f (seq 1 k)) <= 9.
Proof.
  intros H. change 9 with (List.length (seq 1 9)).
  apply NoDup_incl_length.
  - apply NoDup_filter, seq_NoDup.
  - intros i Hi. apply filter_In in Hi as [Hi Hf]. apply in_seq in Hi. apply in_seq.
    destruct (le_lt_dec 10 i) as [Hge|Hlt]; [rewrite H in Hf by assumption; discriminate|lia].
Qed.

Lemma any_char_matches (base other : string) (k : nat) :
  literal base = true ->
  re_match (base ++ ".") "constant" = false ->
  re_match (base ++ ".") "t" = false ->
  (forall s, re_match (base ++ ".") (other ++ s) = false) ->
  forall names,
    (names = ["constant"; "t"] ++ getNames base (seq 1 k) ++ getNames other (seq 1 k) \/
     names = ["constant"; "t"] ++ getNames other (seq 1 k) ++ getNames base (seq 1 k)) ->
    List.length (filter (re_match (base ++ ".")) names) <= 9.
Proof.
  intros Hl Hc Ht Ho names Hn.
  assert (Hb : List.length (filter (re_match (base ++ ".")) (getNames base (seq 1 k))) <= 9).
  { unfold getNames. rewrite filter_map_comm, length_map.
    apply filter_length_below. intros i Hi. now apply any_char_selector. }
  destruct Hn as [-> | ->]; cbn [app filter]; rewrite Hc, Ht, filter_app;
    rewrite (filter_getNames_other _ other) by assumption;
    rewrite ?app_nil_r; cbn [app]; exact Hb.
Qed.

Lemma binop_length f (a b h : Image) :
  binop f a b = Ok h ->
  List.length (bands h) = List.length (bands a) \/
  List.length (bands h) = List.length (bands b).
Proof.
  unfold binop. intros H.
  destruct (bands b) as [|[n1 y1] [|b2 bs]] eqn:Eb.
  - destruct (bands a) as [|[m1 x1] [|a2 l]] eqn:Ea.
    + cbn in H. injection H as <-. now left.
    + injection H as <-. now right.
    + cbn in H. discriminate.
  - injection H as <-. left. cbn [computed bands List.length]. now rewrite ?length_map.
  - destruct (bands a) as [|[m1 x1] [|a2 l]] eqn:Ea.
    + cbn in H. discriminate.
    + injection H as <-. right. cbn [computed bands List.length]. now rewrite length_map.
    + destruct (Nat.eqb _ _) eqn:E in H; [|discriminate]. injection H as <-.
      apply Nat.eqb_eq in E. left. simpl in E |- *.
      rewrite length_map, length_combine. lia.
Qed.

Lemma select_pattern_length p (img s : Image) :
  select [p] img = Ok s ->
  List.length (bands s) = List.length (filter (fun b : Band => re_match p (fst b)) (bands img)).
Proof.
  unfold select. cbn [select_bands]. unfold select1.
  destruct (filter _ (bands img)) as [|b bs]; [discriminate|].
  cbn [bind]. intros H. injection H as <-. cbn [with_bands bands]. now rewrite app_nil_r.
Qed.

(** X11.  With ten harmonics or more the amplitude bands cannot be built:
    the selectors [sin_.] and [cos_.] match a one-character index only, at
    most nine bands each, and the renaming to the [k] amplitude names fails. *)
Theorem amplitude_fails_from_ten_harmonics (k : nat) (vs : list value) :
  10 <= k -> List.length vs = 2 + 2 * k ->
  exists msg, amplitude k (coefficient_image k vs) = Err msg.
Proof.
  intros Hk Hl. unfold amplitude.
  destruct (select ["sin_."] (coefficient_image k vs)) as [s|e] eqn:Es;
    [|eexists; reflexivity].
  destruct (select ["cos_."] (coefficient_image k vs)) as [c|e] eqn:Ec;
    [|eexists; reflexivity].
  cbn [bind].
  assert (Hin : List.length (independents k) = List.length vs)
    by now rewrite independents_length.
  assert (Hs : List.length (bands s) <= 9).
  { rewrite (select_pattern_length _ _ _ Es). cbn [coefficient_image computed bands].
    rewrite (filter_combine_length (re_match "sin_.")) by assumption.
    apply (any_char_matches "sin_" "cos_" k); try reflexivity.
    right. reflexivity. }
  assert (Hc : List.length (bands c) <= 9).
  { rewrite (select_pattern_length _ _ _ Ec). cbn [coefficient_image computed bands].
    rewrite (filter_combine_length (re_match "cos_.")) by assumption.
    apply (any_char_matches "cos_" "sin_" k); try reflexivity.
    left. reflexivity. }
  destruct (hypot s c) as [h|e] eqn:Eh; [|eexists; reflexivity]. cbn [bind].
  assert (Hh : List.length (bands h) <= 9)
    by (destruct (binop_length _ _ _ _ Eh) as [-> | ->]; assumption).
  destruct (multiply h (Image_const 5)) as [h5|e] eqn:E5; [|eexists; reflexivity].
  cbn [bind].
  assert (H5 : List.length (bands h5) = List.length (bands h)).
  { unfold multiply, binop in E5. cbn [Image_const computed bands] in E5.
    injection E5 as <-. cbn [computed bands]. now rewrite length_map. }
  unfold rename, rename_bands, ampNames. rewrite getNames_length.
  unfold harmonicFrequencies. rewrite length_seq.
  destruct (Nat.eqb_spec k (List.length (bands h5))) as [E|N]; [lia|].
  eexists. reflexivity.
Qed.

Lemma amplitude_fails_from_ten_harmonics_witness :
  exists msg, amplitude 10 (coefficient_image 10 (repeat (Some 1%R) 22)) = Err msg.
Proof.
  apply (amplitude_fails_from_ten_harmonics 10 (repeat (Some 1%R) 22)); [lia|reflexivity].
Defined.

(** ** Stored values *)

Lemma near_integer_range (ti : R -> Z) (x : R) (lo hi : Z) :
  (Rabs (IZR (ti x) - x) < 1)%R -> (IZR lo <= x <= IZR hi)%R -> (lo <= ti x <= hi)%Z.
Proof.
  intros Hn [H1 H2]. apply Rabs_def2 in Hn as [Ha Hb].
  split.
  - assert (IZR (lo - 1) < IZR (ti x))%R by (rewrite minus_IZR; lra).
    apply lt_IZR in H. lia.
  - assert (IZR (ti x) < IZR (hi + 1))%R by (rewrite plus_IZR; lra).
    apply lt_IZR in H. lia.
Qed.

Lemma stored_unclamped (ti : R -> Z) (p : R) (lo hi : Z) :
  (forall x, Rabs (IZR (ti x) - x) < 1)%R ->
  (IZR lo <= p * 10000 <= IZR hi)%R -> (INT16_MIN <= lo)%Z -> (hi <= INT16_MAX)%Z ->
  stored ti (Some p) = Some (IZR (ti (p * 10000)%R)) /\ (lo <= ti (p * 10000)%R <= hi)%Z.
Proof.
  intros Hn Hp Hlo Hhi.
  pose proof (near_integer_range ti (p * 10000) lo hi (Hn _) Hp) as Hz.
  split; [|exact Hz].
  unfold stored, vmap, vmap2, toShort_R. rewrite clamp_int16_id by lia. reflexivity.
Qed.

Lemma round_nearest_near x : (Rabs (IZR (round_nearest x) - x) < 1)%R.
Proof. pose proof (round_nearest_close x). lra. Qed.

(** X12.  For 1 to 9 harmonics the phase bands are stored without clamping,
    as integers between 0 and 10000, whatever conversion to an integer the
    cast uses as long as it moves a number by less than 1. *)
Theorem phase_is_stored_unclamped (ti : R -> Z) (k : nat) (cs : list R) :
  (forall x, Rabs (IZR (ti x) - x) < 1)%R ->
  1 <= k <= 9 -> List.length cs = 2 + 2 * k ->
  exists coeffs amp ph,
    arrayFlatten (independents k) (Some cs) = Ok coeffs /\
    amplitude k coeffs = Ok amp /\
    phase k (addBands coeffs amp) = Ok ph /\
    forall i, 1 <= i <= k ->
      exists p z,
        nth (i - 1) (bandValues ph) None = Some p /\
        stored ti (Some p) = Some (IZR z) /\
        (0 <= z <= 10000)%Z.
Proof.
  intros Hn Hk Hl.
  assert (Hl' : List.length (map Some cs) = 2 + 2 * k) by now rewrite length_map.
  destruct (derived_closed_form k (map Some cs) None Hk Hl') as (Ha & Hp & _).
  do 3 eexists. split; [now apply arrayFlatten_Some|]. split; [exact Ha|]. split; [exact Hp|].
  destruct (named_bands_values (phaseNames k)
              (map (phase_value k (map Some cs)) (harmonicFrequencies k))
              (term_names_length _ _ _)) as [_ Hv].
  intros i Hi. rewrite Hv. unfold harmonicFrequencies.
  rewrite nth_map_seq by assumption. unfold phase_value.
  rewrite !nth_Some by lia. cbn [vmap vmap2].
  set (p := unitScale_R (- PI) PI (angle_R (nth (1 + k + i) cs 0%R) (nth (1 + i) cs 0%R))).
  assert (Hr : (0 <= p <= 1)%R) by apply unitScale_range, atan2_R_range.
  destruct (stored_unclamped ti p 0 10000 Hn) as [Hs Hz];
    [lra|unfold INT16_MIN; lia|unfold INT16_MAX; lia|].
  exists p, (ti (p * 10000)%R). auto.
Qed.

Lemma phase_is_stored_unclamped_witness :
  exists coeffs amp ph,
    arrayFlatten (independents 3) (Some [0.5; 0; 4; 0; 0; 3; 0; 0]%R) = Ok coeffs /\
    amplitude 3 coeffs = Ok amp /\
    phase 3 (addBands coeffs amp) = Ok ph /\
    forall i, 1 <= i <= 3 ->
      exists p z,
        nth (i - 1) (bandValues ph) None = Some p /\
        stored round_nearest (Some p) = Some (IZR z) /\
        (0 <= z <= 10000)%Z.
Proof.
  apply (phase_is_stored_unclamped round_nearest 3 [0.5; 0; 4; 0; 0; 3; 0; 0]%R).
  - apply round_nearest_near.
  - lia.
  - reflexivity.
Defined.

Lemma stored_saturates (ti : R -> Z) (a : R) :
  (forall x, Rabs (IZR (ti x) - x) < 1)%R -> (32768 <= a * 10000)%R ->
  stored ti (Some a) = Some 32767%R.
Proof.
  intros Hn Ha. unfold stored, vmap, vmap2, toShort_R. do 2 f_equal.
  specialize (Hn (a * 10000)%R). apply Rabs_def2 in Hn as [H1 H2].
  assert (IZR 32767 < IZR (ti (a * 10000)%R))%R by lra.
  apply lt_IZR in H. unfold clamp_int16, INT16_MIN, INT16_MAX. lia.
Qed.

(** X13.  The exported amplitude saturates: because of the factor 5, a
    harmonic whose [hypot(sin_i, cos_i)] is 0.65536 or more is stored as 32767. *)
Theorem amplitude_saturates (ti : R -> Z) (k : nat) (cs : list R) (i : nat) :
  (forall x, Rabs (IZR (ti x) - x) < 1)%R ->
  1 <= k <= 9 -> List.length cs = 2 + 2 * k -> 1 <= i <= k ->
  (0.65536 <= hypot_R (nth (1 + k + i) cs 0) (nth (1 + i) cs 0))%R ->
  exists coeffs amp a,
    arrayFlatten (independents k) (Some cs) = Ok coeffs /\
    amplitude k coeffs = Ok amp /\
    nth (i - 1) (bandValues amp) None = Some a /\
    stored ti (Some a) = Some 32767%R.
Proof.
  intros Hn Hk Hl Hi Hh.
  assert (Hl' : List.length (map Some cs) = 2 + 2 * k) by now rewrite length_map.
  destruct (derived_closed_form k (map Some cs) None Hk Hl') as (Ha & _ & _).
  do 3 eexists. split; [now apply arrayFlatten_Some|]. split; [exact Ha|].
  destruct (named_bands_values (ampNames k)
              (map (amplitude_value k (map Some cs)) (harmonicFrequencies k))
              (term_names_length _ _ _)) as [_ Hv].
  rewrite Hv. unfold harmonicFrequencies. rewrite nth_map_seq by assumption.
  unfold amplitude_value. rewrite !nth_Some by lia. cbn [vmap2].
  split; [reflexivity|]. apply stored_saturates; [assumption|lra].
Qed.

Lemma amplitude_saturates_witness :
  exists coeffs amp a,
    arrayFlatten (independents 3) (Some [0.5; 0; 4; 0; 0; 3; 0; 0]%R) = Ok coeffs /\
    amplitude 3 coeffs = Ok amp /\
    nth (1 - 1) (bandValues amp) None = Some a /\
    stored round_nearest (Some a) = Some 32767%R.
Proof.
  apply (amplitude_saturates round_nearest 3 [0.5; 0; 4; 0; 0; 3; 0; 0]%R 1).
  - apply round_nearest_near.
  - lia.
  - reflexivity.
  - lia.
  - cbn [nth Nat.add]. rewrite hypot_3_4. lra.
Defined.

(** ** The mean NDVI *)

Lemma Rsum_bounds l :
  Forall (fun x => -1 <= x <= 1)%R l ->
  (- INR (List.length l) <= Rsum l <= INR (List.length l))%R.
Proof.
  induction 1 as [|x l Hx _ IH].
  - simpl. lra.
  - cbn [Rsum fold_right]. fold (Rsum l). rewrite length_cons, S_INR. lra.
Qed.

Lemma mean_bounds l :
  l <> [] -> Forall (fun x => -1 <= x <= 1)%R l -> (-1 <= mean l <= 1)%R.
Proof.
  intros Hne H. pose proof (Rsum_bounds l H) as Hs. unfold mean.
  assert (Hn : (0 < INR (List.length l))%R).
  { apply lt_0_INR. destruct l; [contradiction|simpl; lia]. }
  split.
  - apply (Rmult_le_reg_r (INR (List.length l))); [assumption|].
    unfold Rdiv. rewrite Rmult_assoc, Rinv_l by lra. lra.
  - apply (Rmult_le_reg_r (INR (List.length l))); [assumption|].
    unfold Rdiv. rewrite Rmult_assoc, Rinv_l by lra. lra.
Qed.

Lemma unmasked_in x vs : In x (unmasked vs) <-> In (Some x) vs.
Proof.
  unfold unmasked. rewrite in_flat_map. split.
  - intros ([y|] & Hv & Hx); [|contradiction]. destruct Hx as [<-|[]]. exact Hv.
  - intros H. exists (Some x). split; [exact H|now left].
Qed.

Lemma unmasked_nil vs : unmasked vs = [] <-> Forall (fun v => v = None) vs.
Proof.
  split; [|apply unmasked_None].
  intros H. apply Forall_forall. intros [x|] Hv; [|reflexivity].
  apply unmasked_in in Hv. rewrite H in Hv. contradiction.
Qed.

(** X14.  For a collection that is not empty, the band [NDVI_mean] is the
    mean of the NDVI over the images where it is not masked: it is masked
    exactly when the NDVI is masked in every image, and lies between -1 and 1
    otherwise. *)
Theorem NDVI_mean_range (k : nat) (L : list Raw) :
  observations L <> [] ->
  exists c m v,
    harmonicLandsat k L = Ok c /\
    NDVI_mean c = Ok m /\
    bands m = [("NDVI_mean", v)] /\
    v = reduce_values mean (map (band_value "NDVI") c) /\
    (v = None <-> Forall (fun img => band_value "NDVI" img = None) c) /\
    (forall y, v = Some y -> (-1 <= y <= 1)%R).
Proof.
  intros Hobs. set (obs := observations L) in *.
  exists (map (prepared k) obs).
  exists (computed [("NDVI_mean", reduce_values mean (map ndvi_value obs))]).
  exists (reduce_values mean (map ndvi_value obs)).
  assert (Hmap : map (band_value "NDVI") (map (prepared k) obs) = map ndvi_value obs).
  { rewrite map_map. apply map_ext. intros r. apply band_value_NDVI. }
  split; [apply harmonicLandsat_eq|]. split; [now apply NDVI_mean_eq|].
  split; [reflexivity|]. split; [now rewrite Hmap|].
  unfold reduce_values. split.
  - rewrite Forall_map, <- Hmap at 1. rewrite Hmap.
    rewrite <- (Forall_map ndvi_value (fun v => v = None)), <- unmasked_nil.
    destruct (unmasked (map ndvi_value obs)); split; intros; congruence.
  - intros y Hy.
    destruct (unmasked (map ndvi_value obs)) as [|x xs] eqn:E; [discriminate|].
    injection Hy as <-. apply mean_bounds; [discriminate|].
    apply Forall_forall. intros z Hz. rewrite <- E in Hz.
    apply unmasked_in, in_map_iff in Hz as (r & Hr & _).
    destruct (ndvi_value_Some r z Hr) as (_ & _ & H4 & H5 & ->).
    now apply normalized_difference_bounds.
Qed.

Lemma NDVI_mean_range_witness :
  exists c m v,
    harmonicLandsat 3 (july_series stepList) = Ok c /\
    NDVI_mean c = Ok m /\
    bands m = [("NDVI_mean", v)] /\
    v = reduce_values mean (map (band_value "NDVI") c) /\
    (v = None <-> Forall (fun img => band_value "NDVI" img = None) c) /\
    (forall y, v = Some y -> (-1 <= y <= 1)%R).
Proof.
  apply (NDVI_mean_range 3 (july_series stepList)).
  assert (E : observations (july_series stepList) = july_series stepList)
    by (vm_compute; reflexivity).
  rewrite E. discriminate.
Defined.

(** ** Composites *)

Lemma append_empty (s : string) : (s ++ "")%string = s.
Proof. induction s as [|c s IH]; simpl; [reflexivity|]. now rewrite IH. Qed.

Lemma map_nth_seq {A B : Type} (f : A -> B) (l : list A) (d : A) :
  map (fun j => f (nth j l d)) (seq 0 (List.length l)) = map f l.
Proof.
  induction l as [|a l IH]; [reflexivity|].
  cbn [List.length seq map nth]. f_equal. rewrite <- seq_shift, map_map. exact IH.
Qed.

(** X15.  The composite of a year is stamped June 1 of that year.  When no
    image of the collection falls in the window from June 1 (included) to
    September 30 (excluded), it has no band and is flagged [valid = 0]; when
    one does (and has bands), it is flagged [valid = 1] and has the band names
    of the first image of the window. *)
Theorem composite_valid_flag (median : list R -> R) (c : list Image) (year : Z) :
  let w := filterDate (fromYMD year 6 1) (fromYMD year 9 30) c in
  time_start (composite median c year) = Some (fromYMD year 6 1) /\
  (w = [] -> bands (composite median c year) = [] /\
             valid (composite median c year) = Some 0%Z) /\
  (forall first rest, w = first :: rest -> bands first <> [] ->
     valid (composite median c year) = Some 1%Z /\
     bandNames (composite median c year) = bandNames first).
Proof.
  intros w. unfold composite. fold w. split; [|split].
  - destruct (bandNames _); reflexivity.
  - intros ->. split; reflexivity.
  - intros first rest -> Hb.
    assert (Hn : bandNames (set_time_start (fromYMD year 6 1)
                              (Collection_reduce "" median (first :: rest)))
                 = bandNames first).
    { unfold bandNames, set_time_start, Collection_reduce. cbn [bands computed].
      rewrite map_map. cbn [fst]. fold (bandNames first).
      rewrite <- (length_map fst (bands first)). fold (bandNames first).
      rewrite (map_nth_seq (fun s => (s ++ "")%string) (bandNames first) "").
      rewrite <- (map_id (bandNames first)) at 2. apply map_ext, append_empty. }
    rewrite Hn. unfold bandNames in *.
    destruct (bands first) as [|b bs]; [contradiction|].
    cbn [map]. split; [reflexivity|]. cbn [set_valid bands]. exact Hn.
Qed.

Lemma has_window_existsb year L :
  has_window L year = existsb (in_window year) L.
Proof.
  unfold has_window, window. induction L as [|r L IH]; [reflexivity|].
  cbn [filter existsb]. destruct (in_window year r); [reflexivity|exact IH].
Qed.

(** X16.  [yearlyComposites] holds one composite for each year of 2013 to
    2023 that has an image in its window, in the order of the years and
    stamped June 1 of its year; the years without image are left out. *)
Theorem yearlyComposites_in_order
    (k : nat) (ols : list (list R) -> list R -> list R) (rd : list (list R) -> bool)
    (median : list R -> R) (L : list Raw) :
  (forall X y, List.length (ols X y) = 2 + 2 * k) ->
  observations L <> [] ->
  exists c fit,
    harmonicLandsat k L = Ok c /\
    fittedHarmonic k ols rd c = Ok fit /\
    map time_start (yearlyComposites median fit)
    = map (fun year => Some (fromYMD year 6 1))
          (filter (fun year => existsb (in_window year) L) stepList) /\
    List.length (yearlyComposites median fit) <= 11.
Proof.
  intros Hols Hobs. set (obs := observations L) in *.
  assert (Hcol := columns_of_ols k ols rd obs Hols).
  pose (fv := fun r => fitted_value k r (solution_values k ols rd obs)).
  pose proof (yearlyComposites_years k median fv obs) as Hy. cbv beta delta [fv] in Hy.
  assert (Hf : filter (has_window obs) stepList
               = filter (fun year => existsb (in_window year) L) stepList).
  { apply filter_ext_in. intros y Hin. rewrite has_window_existsb.
    rewrite <- !has_window_existsb. unfold has_window, obs.
    now rewrite window_observations. }
  do 2 eexists. split; [apply harmonicLandsat_eq|].
  split; [apply (fittedHarmonic_eq k ols rd obs Hcol Hobs)|].
  split; [now rewrite Hy, Hf|].
  rewrite <- (length_map time_start), Hy, length_map.
  change 11 with (List.length stepList). apply filter_length_le.
Qed.

Lemma yearlyComposites_in_order_witness :
  exists c fit,
    harmonicLandsat 3
      (july_series [2013; 2014; 2016; 2017; 2018; 2019; 2020; 2021; 2022; 2023]%Z) = Ok c /\
    fittedHarmonic 3 (zero_solution 3) never_deficient c = Ok fit /\
    map time_start (yearlyComposites first_value fit)
    = map (fun year => Some (fromYMD year 6 1))
          (filter (fun year =>
                     existsb (in_window year)
                       (july_series
                          [2013; 2014; 2016; 2017; 2018; 2019; 2020; 2021; 2022; 2023]%Z))
                  stepList) /\
    List.length (yearlyComposites first_value fit) <= 11.
Proof.
  apply (yearlyComposites_in_order 3 (zero_solution 3) never_deficient first_value
           (july_series [2013; 2014; 2016; 2017; 2018; 2019; 2020; 2021; 2022; 2023]%Z)).
  - intros X y. reflexivity.
  - assert (E : observations
                  (july_series [2013; 2014; 2016; 2017; 2018; 2019; 2020; 2021; 2022; 2023]%Z)
                = july_series [2013; 2014; 2016; 2017; 2018; 2019; 2020; 2021; 2022; 2023]%Z)
      by (vm_compute; reflexivity).
    rewrite E. discriminate.
Defined.

(** X17.  The window of every year of 2013 to 2023 lies inside the study
    period of the collection: the date filter of [harmonicLandsat] drops no
    image of a yearly window. *)
Theorem windows_inside_study_period (k : nat) (L : list Raw) (year : Z) :
  In year stepList ->
  exists c,
    harmonicLandsat k L = Ok c /\
    map time_start (filterDate (fromYMD year 6 1) (fromYMD year 9 30) c)
    = map Some (filter (fun t => (fromYMD year 6 1 <=? t) && (t <? fromYMD year 9 30))%Z
                       (map raw_time L)).
Proof.
  intros Hy. exists (map (prepared k) (observations L)). split; [apply harmonicLandsat_eq|].
  unfold filterDate. rewrite filter_map_comm, map_map.
  change (filter (fun x => in_range (fromYMD year 6 1) (fromYMD year 9 30) (prepared k x))
                 (observations L))
    with (window year (observations L)).
  rewrite window_observations by assumption. unfold window, in_window.
  rewrite (filter_map_comm _ raw_time), map_map. apply map_ext. intros r. reflexivity.
Qed.

Lemma windows_inside_study_period_witness :
  exists c,
    harmonicLandsat 3 (july_series stepList) = Ok c /\
    map time_start (filterDate (fromYMD 2015 6 1) (fromYMD 2015 9 30) c)
    = map Some (filter (fun t => (fromYMD 2015 6 1 <=? t) && (t <? fromYMD 2015 9 30))%Z
                       (map raw_time (july_series stepList))).
Proof.
  apply (windows_inside_study_period 3 (july_series stepList) 2015%Z). cbn. tauto.
Defined.
